(** * Junkie: the suspending dependency-injection resolver

    A shallow embedding of [junkie/_async_junkie.py] (class [AsyncJunkie] with
    its nested [_Stack] and [_InstantiationStack]) and the properties of the
    resolver that the specification states.

    - Python objects are the inductive [value]; callables are identities
      ([fid]) described by a table of [Factory] records, since the resolver
      compares them, inspects their signature and calls them.
    - The mutable attributes of the injector are the fields of [Junkie].
      The dictionaries and exit stacks those attributes refer to live in two
      stores and the attributes hold references, so that
      [_instances_by_name] and the top of [_instances_by_name_stack] are one
      dictionary, as in the source.
    - Coroutine methods are functions in a state-and-exception monad; the
      resolver's own [await]s of its own methods are calls.
    - What the caller supplies (factories, resources, coroutine objects) is
      described by what it returns or raises; it does not call the injector
      itself.  Logging is at its default level, so the branches under
      [LOGGER.isEnabledFor(logging.DEBUG)] are not taken.
    - [contextlib.AsyncExitStack] and the [asynccontextmanager] protocol are
      modelled from their documented behaviour. *)

From Stdlib Require Import Ascii String List Lia.
From stdpp Require Import base option list strings gmap pretty.

Local Open Scope string_scope.
Local Open Scope list_scope.

(** ** Python values *)

Definition fid := nat.
Definition loc := nat.

Inductive exn :=
| JunkieError (msg : string)
| TypeError (msg : string)
| RuntimeError (msg : string)
| IndexError (msg : string)
| UserException (tag : string).

(** What a resource's [__aexit__] does when it is called: it returns a false
    value, returns a true value (asking for the exception to be swallowed),
    or raises. *)
Inductive ExitBehaviour :=
| ExitFalse
| ExitTrue
| ExitRaises (e : exn).

#[warnings="-register-all"]
Inductive value :=
| VNone
| VStr (s : string)
| VTuple (items : list value)
| VList (items : list value)
| VSet (names : list string)
| VDict (entries : list (string * value))
| VObj (id : nat)
| VCallable (f : fid)
| VCoroutine (id : nat) (result : completion)
| VScoped (id : nat) (aenter : completion) (aexit : ExitBehaviour)
with completion :=
| Returns (v : value)
| Throws (e : exn).

(** [isinstance(v, str)], [callable(v)], [hasattr(v, "__aenter__")]. *)
Definition callable (v : value) : bool :=
  match v with VCallable _ => true | _ => false end.

Definition has_aenter (v : value) : bool :=
  match v with VScoped _ _ _ => true | _ => false end.

(** ** Signatures ([inspect.signature]) *)

Inductive ParameterKind :=
| POSITIONAL_ONLY
| POSITIONAL_OR_KEYWORD
| VAR_POSITIONAL
| KEYWORD_ONLY
| VAR_KEYWORD.

(** An [inspect.Parameter]; [p_default] and [p_annotation] are [None] for
    [inspect.Parameter.empty]. *)
Record Param := {
  p_name : string;
  p_kind : ParameterKind;
  p_default : option value;
  p_annotation : option value
}.

(** The chain followed by [_get_source_info]: a callable either is its own
    source object, for which [inspect] finds a file and a line or fails, or
    carries a [__wrapped__] attribute. *)
Inductive SourceObj :=
| Plain (src : option (string * nat))
| Wrapper (__wrapped__ : SourceObj).

(** A callable, as far as the resolver observes it: [signature] is [None]
    when [inspect.signature] raises; [call] is the callable applied to
    positional arguments, keyword arguments and the identity available for
    an object it allocates. *)
Record Factory := {
  signature : option (list Param);
  source : SourceObj;
  call : list value -> list (string * value) -> nat -> completion
}.

(** What the module imports and does not define itself: [get_factory_name]
    and [BUILTINS] (from [junkie._junkie]), the callables that exist, and
    Python's [str] on values (used in one error message). *)
Record Runtime := {
  get_factory_name : fid -> string;
  BUILTINS : list fid;
  factories : fid -> Factory;
  py_str : value -> string
}.

(** ** The injector object and its stores *)

Inductive Event :=
| Acquire (id : nat)
| Release (id : nat).

(** An entry of a [contextlib.AsyncExitStack]: the resource and its
    [__aexit__]. *)
Record ExitCallback := { cb_id : nat; cb_exit : ExitBehaviour }.

Record Junkie := {
  _context : gmap string value;
  _instances_by_name : loc;
  _instances_by_name_stack : list loc;
  _instantiation_stack : list fid;
  _exit_stack : loc;
  dicts : list (gmap string value);
  exit_stacks : list (list ExitCallback);
  next_id : nat;
  awaited : list nat;
  events : list Event
}.

Definition set_instances_by_name (l : loc) (s : Junkie) : Junkie :=
  {| _context := _context s; _instances_by_name := l;
     _instances_by_name_stack := _instances_by_name_stack s;
     _instantiation_stack := _instantiation_stack s;
     _exit_stack := _exit_stack s; dicts := dicts s;
     exit_stacks := exit_stacks s; next_id := next_id s;
     awaited := awaited s; events := events s |}.

Definition set_instances_by_name_stack (st : list loc) (s : Junkie) : Junkie :=
  {| _context := _context s; _instances_by_name := _instances_by_name s;
     _instances_by_name_stack := st;
     _instantiation_stack := _instantiation_stack s;
     _exit_stack := _exit_stack s; dicts := dicts s;
     exit_stacks := exit_stacks s; next_id := next_id s;
     awaited := awaited s; events := events s |}.

Definition set_instantiation_stack (st : list fid) (s : Junkie) : Junkie :=
  {| _context := _context s; _instances_by_name := _instances_by_name s;
     _instances_by_name_stack := _instances_by_name_stack s;
     _instantiation_stack := st;
     _exit_stack := _exit_stack s; dicts := dicts s;
     exit_stacks := exit_stacks s; next_id := next_id s;
     awaited := awaited s; events := events s |}.

Definition set_exit_stack (l : loc) (s : Junkie) : Junkie :=
  {| _context := _context s; _instances_by_name := _instances_by_name s;
     _instances_by_name_stack := _instances_by_name_stack s;
     _instantiation_stack := _instantiation_stack s;
     _exit_stack := l; dicts := dicts s;
     exit_stacks := exit_stacks s; next_id := next_id s;
     awaited := awaited s; events := events s |}.

Definition set_dicts (d : list (gmap string value)) (s : Junkie) : Junkie :=
  {| _context := _context s; _instances_by_name := _instances_by_name s;
     _instances_by_name_stack := _instances_by_name_stack s;
     _instantiation_stack := _instantiation_stack s;
     _exit_stack := _exit_stack s; dicts := d;
     exit_stacks := exit_stacks s; next_id := next_id s;
     awaited := awaited s; events := events s |}.

Definition set_exit_stacks (e : list (list ExitCallback)) (s : Junkie) : Junkie :=
  {| _context := _context s; _instances_by_name := _instances_by_name s;
     _instances_by_name_stack := _instances_by_name_stack s;
     _instantiation_stack := _instantiation_stack s;
     _exit_stack := _exit_stack s; dicts := dicts s;
     exit_stacks := e; next_id := next_id s;
     awaited := awaited s; events := events s |}.

Definition set_next_id (n : nat) (s : Junkie) : Junkie :=
  {| _context := _context s; _instances_by_name := _instances_by_name s;
     _instances_by_name_stack := _instances_by_name_stack s;
     _instantiation_stack := _instantiation_stack s;
     _exit_stack := _exit_stack s; dicts := dicts s;
     exit_stacks := exit_stacks s; next_id := n;
     awaited := awaited s; events := events s |}.

Definition set_awaited (a : list nat) (s : Junkie) : Junkie :=
  {| _context := _context s; _instances_by_name := _instances_by_name s;
     _instances_by_name_stack := _instances_by_name_stack s;
     _instantiation_stack := _instantiation_stack s;
     _exit_stack := _exit_stack s; dicts := dicts s;
     exit_stacks := exit_stacks s; next_id := next_id s;
     awaited := a; events := events s |}.

Definition set_events (ev : list Event) (s : Junkie) : Junkie :=
  {| _context := _context s; _instances_by_name := _instances_by_name s;
     _instances_by_name_stack := _instances_by_name_stack s;
     _instantiation_stack := _instantiation_stack s;
     _exit_stack := _exit_stack s; dicts := dicts s;
     exit_stacks := exit_stacks s; next_id := next_id s;
     awaited := awaited s; events := ev |}.

(** The dictionary a reference denotes (a reference that denotes nothing
    reads as the empty dictionary; the resolver only holds references it
    allocated). *)
Definition dict_at (l : loc) (s : Junkie) : gmap string value :=
  default ∅ (dicts s !! l).

Definition exit_stack_at (l : loc) (s : Junkie) : list ExitCallback :=
  default [] (exit_stacks s !! l).

(** The per-build instance cache the resolver reads and writes:
    [self._instances_by_name]. *)
Definition cache (s : Junkie) : gmap string value :=
  dict_at (_instances_by_name s) s.

(** ** The monad of coroutine methods

    A method runs on the injector's state and returns a value, raises, or
    (in this model only) runs out of recursion budget.  State changes made
    before an exception are kept, as in Python. *)

Inductive outcome (A : Type) :=
| Ok (a : A)
| Raise (e : exn)
| OutOfFuel.
Arguments Ok {A} a.
Arguments Raise {A} e.
Arguments OutOfFuel {A}.

Definition M (A : Type) : Type := Junkie -> outcome A * Junkie.

Definition ret {A} (a : A) : M A := fun s => (Ok a, s).
Definition raise {A} (e : exn) : M A := fun s => (Raise e, s).
Definition bind {A B} (c : M A) (k : A -> M B) : M B :=
  fun s =>
    match c s with
    | (Ok a, s') => k a s'
    | (Raise e, s') => (Raise e, s')
    | (OutOfFuel, s') => (OutOfFuel, s')
    end.
Definition get : M Junkie := fun s => (Ok s, s).
Definition modify (f : Junkie -> Junkie) : M unit := fun s => (Ok tt, f s).

Notation "x <- c ;; k" := (bind c (fun x => k))
  (at level 100, c at next level, right associativity).
Notation "c ;; k" := (bind c (fun _ => k))
  (at level 100, right associativity).

(** [try: body finally: cleanup]. An exception raised by the cleanup
    replaces the outcome of the body. *)
Definition try_finally {A} (body : M A) (cleanup : M unit) : M A :=
  fun s =>
    let (r, s1) := body s in
    match cleanup s1 with
    | (Ok _, s2) => (r, s2)
    | (Raise e, s2) => (Raise e, s2)
    | (OutOfFuel, s2) => (OutOfFuel, s2)
    end.

(** ** [_Stack]

    A Python list used as a stack: [push] appends, [pop] removes the last
    item and [peek] reads it; both fail with [IndexError] on an empty
    list. *)
Module _Stack.
Definition push {A} (item : A) (st : list A) : list A := st ++ [item].
Definition pop {A} (st : list A) : option (A * list A) :=
  match last st with
  | Some x => Some (x, removelast st)
  | None => None
  end.
Definition peek {A} (st : list A) : option A := last st.
Definition contains (item : fid) (st : list fid) : bool :=
  bool_decide (item ∈ st).
End _Stack.

(** ** [_InstantiationStack.__str__] *)

Definition dquote : string := String "034"%char EmptyString.
Definition newline : string := String "010"%char EmptyString.

Fixpoint spaces (n : nat) : string :=
  match n with
  | 0 => ""
  | S n' => " " +:+ spaces n'
  end.

Fixpoint _get_source_info (o : SourceObj) : string :=
  match o with
  | Wrapper w => _get_source_info w
  | Plain (Some (file, line)) =>
      dquote +:+ file +:+ ":" +:+ pretty line +:+ dquote
  | Plain None => "unknown source"
  end.

Section Rendering.
Variable R : Runtime.

Definition stack_entry (idx : nat) (factory : fid) : string :=
  newline +:+ spaces idx +:+ "-> " +:+ get_factory_name R factory
    +:+ "() at " +:+ _get_source_info (source (factories R factory)).

(** [enumerate] from index [idx]. *)
Fixpoint stack_entries (idx : nat) (st : list fid) : string :=
  match st with
  | [] => ""
  | factory :: rest => stack_entry idx factory +:+ stack_entries (S idx) rest
  end.

Definition _InstantiationStack_str (st : list fid) : string :=
  match st with
  | [] => ""
  | _ => stack_entries 0 st +:+ newline
  end.
End Rendering.

(** ** Small Python operations used by the resolver *)

(** [name in d] for a dictionary. *)
Definition dict_contains (d : gmap string value) (name : string) : bool :=
  bool_decide (is_Some (d !! name)).

(** [od[name] = v] on an [OrderedDict]: a key that is present keeps its
    place, a new key goes last. *)
Fixpoint odict_set (name : string) (v : value) (od : list (string * value))
  : list (string * value) :=
  match od with
  | [] => [(name, v)]
  | (k, w) :: rest =>
      if bool_decide (k = name) then (k, v) :: rest
      else (k, w) :: odict_set name v rest
  end.

Fixpoint chars (s : string) : list value :=
  match s with
  | EmptyString => []
  | String c rest => VStr (String c EmptyString) :: chars rest
  end.

(** A value spread with one star in a call: the items it yields when
    iterated. *)
Definition iterate (v : value) : M (list value) :=
  match v with
  | VTuple items => ret items
  | VList items => ret items
  | VStr s => ret (chars s)
  | VSet names => ret (map VStr names)
  | VDict entries => ret (map (fun kv => VStr (fst kv)) entries)
  | _ => raise (TypeError "argument after * must be an iterable")
  end.

(** A value spread with two stars in a call. *)
Definition mapping (v : value) : M (list (string * value)) :=
  match v with
  | VDict entries => ret entries
  | _ => raise (TypeError "argument after ** must be a mapping")
  end.

Definition has_key (name : string) (kw : list (string * value)) : bool :=
  bool_decide (name ∈ map fst kw).

(** A call that spreads two mappings rejects a keyword given twice. *)
Definition merge_keywords (kw1 kw2 : list (string * value))
  : M (list (string * value)) :=
  if forallb (fun kv => negb (has_key (fst kv) kw1)) kw2
  then ret (kw1 ++ kw2)
  else raise (TypeError "got multiple values for keyword argument").

Definition of_completion (c : completion) : M value :=
  match c with
  | Returns v => ret v
  | Throws e => raise e
  end.

(** [await v] on an object that is not one of the resolver's own
    coroutines: a coroutine object runs once, anything else in this model is
    not awaitable. *)
Definition await (v : value) : M value :=
  match v with
  | VCoroutine id result =>
      s <- get ;;
      if bool_decide (id ∈ awaited s)
      then raise (RuntimeError "cannot reuse already awaited coroutine")
      else (modify (fun s => set_awaited (id :: awaited s) s) ;;
            of_completion result)
  | _ => raise (TypeError "object can't be used in 'await' expression")
  end.

(** ** [contextlib.AsyncExitStack] *)

(** [enter_async_context(cm)]: run [__aenter__]; when it returns, register
    [__aexit__] and give back what it returned. *)
Definition enter_async_context (cm : value) : M value :=
  match cm with
  | VScoped id aenter aexit =>
      match aenter with
      | Returns r =>
          modify (fun s =>
            set_events (events s ++ [Acquire id])
              (set_exit_stacks
                 (<[_exit_stack s :=
                      exit_stack_at (_exit_stack s) s
                        ++ [{| cb_id := id; cb_exit := aexit |}]]>
                    (exit_stacks s)) s)) ;;
          ret r
      | Throws e => raise e
      end
  | _ => raise (TypeError "object does not support the asynchronous context manager protocol")
  end.

(** The exception in flight after one callback ran. *)
Definition after_callback (cb : ExitCallback) (pending : option exn)
  : option exn :=
  match cb_exit cb with
  | ExitFalse => pending
  | ExitTrue => None
  | ExitRaises e => Some e
  end.

(** The callbacks run last-registered first; [cbs] is in registration
    order. *)
Definition run_callbacks (cbs : list ExitCallback) (pending : option exn)
  : option exn :=
  fold_right after_callback pending cbs.

(** [__aexit__] of the exit stack at [E], entered with the exception in
    flight (if any): every callback is popped and run; what is still in
    flight afterwards is raised. *)
Definition aexit (E : loc) (exc : option exn) : M unit :=
  fun s =>
    let cbs := exit_stack_at E s in
    let s' :=
      set_events (events s ++ map (fun cb => Release (cb_id cb)) (rev cbs))
        (set_exit_stacks (<[E := []]> (exit_stacks s)) s) in
    match run_callbacks cbs exc with
    | Some e => (Raise e, s')
    | None => (Ok tt, s')
    end.

(** ** [AsyncJunkie] *)

(** The four results of [_build_parameters], with the loop's flag. *)
Record Bound := {
  positional_params : list (string * value);
  args : value;
  keyword_params : list (string * value);
  kwargs : value;
  positional_params_finished : bool
}.

Definition Bound_init : Bound :=
  {| positional_params := []; args := VTuple []; keyword_params := [];
     kwargs := VDict []; positional_params_finished := false |}.

Definition finish_positional (b : Bound) : Bound :=
  {| positional_params := positional_params b; args := args b;
     keyword_params := keyword_params b; kwargs := kwargs b;
     positional_params_finished := true |}.

Definition set_positional (name : string) (v : value) (b : Bound) : Bound :=
  {| positional_params := odict_set name v (positional_params b);
     args := args b; keyword_params := keyword_params b; kwargs := kwargs b;
     positional_params_finished := positional_params_finished b |}.

Definition set_keyword (name : string) (v : value) (b : Bound) : Bound :=
  {| positional_params := positional_params b; args := args b;
     keyword_params := odict_set name v (keyword_params b);
     kwargs := kwargs b;
     positional_params_finished := positional_params_finished b |}.

Definition set_args (v : value) (b : Bound) : Bound :=
  {| positional_params := positional_params b; args := v;
     keyword_params := keyword_params b; kwargs := kwargs b;
     positional_params_finished := positional_params_finished b |}.

Definition set_kwargs (v : value) (b : Bound) : Bound :=
  {| positional_params := positional_params b; args := args b;
     keyword_params := keyword_params b; kwargs := v;
     positional_params_finished := positional_params_finished b |}.

(** The second [if]/[elif] chain of the loop of [_build_parameters]: where a
    built value goes, by the kind of its parameter. *)
Definition place (p : Param) (v : value) (b : Bound) : Bound :=
  match p_kind p with
  | POSITIONAL_ONLY => set_positional (p_name p) v b
  | POSITIONAL_OR_KEYWORD =>
      if positional_params_finished b
      then set_keyword (p_name p) v b
      else set_positional (p_name p) v b
  | VAR_POSITIONAL => set_args v b
  | KEYWORD_ONLY => set_keyword (p_name p) v b
  | VAR_KEYWORD => set_kwargs v b
  end.

Definition name_or_None (instance_name : option string) : string :=
  match instance_name with
  | Some n => n
  | None => "None"
  end.

Section AsyncJunkie.
Variable R : Runtime.

(** The text of [self._instantiation_stack] in an f-string. *)
Definition trace (s : Junkie) : string :=
  _InstantiationStack_str R (_instantiation_stack s).

Definition unable_to_find (instance_name : string) (s : Junkie) : exn :=
  JunkieError (trace s +:+ "Unable to find " +:+ dquote +:+ instance_name
                 +:+ dquote).

Definition missing_builtin (factory_function : fid)
    (instance_name : option string) (s : Junkie) : exn :=
  JunkieError (trace s +:+ "Mapping for " +:+ dquote
                 +:+ name_or_None instance_name +:+ dquote
                 +:+ " of builtin type " +:+ dquote
                 +:+ get_factory_name R factory_function +:+ dquote
                 +:+ " is missing").

Definition dependency_cycle (factory_function : fid) (s : Junkie) : exn :=
  JunkieError (trace s +:+ "Dependency cycle detected with " +:+ dquote
                 +:+ get_factory_name R factory_function +:+ "()" +:+ dquote).

Definition uninspectable (factory_function : fid) (s : Junkie) : exn :=
  JunkieError (trace s +:+ "Unable to inspect signature for " +:+ dquote
                 +:+ get_factory_name R factory_function +:+ "()" +:+ dquote).

Definition unresolved_parameter (instance_name : string)
    (factory_function : fid) (s : Junkie) : exn :=
  JunkieError (trace s +:+ "Unable to find " +:+ dquote +:+ instance_name
                 +:+ dquote +:+ " for " +:+ dquote
                 +:+ get_factory_name R factory_function +:+ "()" +:+ dquote).

Definition unknown_type (name_or_factory : value) (s : Junkie) : exn :=
  JunkieError (trace s +:+ "Unknown type " +:+ dquote
                 +:+ py_str R name_or_factory +:+ dquote
                 +:+ " (str, type or Callable expected)").

(** [self._instances_by_name[instance_name] = instance]. *)
Definition cache_store (instance_name : string) (instance : value) : M unit :=
  modify (fun s =>
    set_dicts (<[_instances_by_name s := <[instance_name := instance]> (cache s)]>
                 (dicts s)) s).

(** [self._instantiation_stack.push_temporarily(item)] around [body]. *)
Definition pop_instantiation_stack : M unit :=
  fun s =>
    match _Stack.pop (_instantiation_stack s) with
    | Some (_, rest) => (Ok tt, set_instantiation_stack rest s)
    | None => (Raise (IndexError "pop from empty list"), s)
    end.

Definition instantiating {A} (item : fid) (body : M A) : M A :=
  modify (fun s =>
    set_instantiation_stack (_Stack.push item (_instantiation_stack s)) s) ;;
  try_finally body pop_instantiation_stack.

Section Methods.
(** The recursive call to [_build_by_factory_function]. *)
Variable build_by_factory : fid -> option string -> M value.

Definition _build_by_instance_name_with (instance_name : string) : M value :=
  s <- get ;;
  if dict_contains (cache s) instance_name then
    await (default VNone (cache s !! instance_name))
  else if dict_contains (_context s) instance_name then
    let value := default VNone (_context s !! instance_name) in
    match value with
    | VCallable factory => build_by_factory factory (Some instance_name)
    | _ => ret value
    end
  else raise (unable_to_find instance_name s).

(** One round of the loop of [_build_parameters]. *)
Definition bind_parameter (factory_function : fid) (p : Param) (b : Bound)
  : M Bound :=
  s <- get ;;
  let instance_name := p_name p in
  if dict_contains (cache s) instance_name
     || dict_contains (_context s) instance_name then
    value <- _build_by_instance_name_with instance_name ;;
    ret (place p value b)
  else
    match p_kind p with
    | VAR_POSITIONAL => ret b
    | VAR_KEYWORD => ret b
    | _ =>
        match p_default p with
        | Some _ => ret (finish_positional b)
        | None =>
            match p_annotation p with
            | Some (VCallable factory) =>
                value <- build_by_factory factory (Some instance_name) ;;
                ret (place p value b)
            | _ => raise (unresolved_parameter instance_name
                            factory_function s)
            end
        end
    end.

Fixpoint bind_parameters (factory_function : fid) (ps : list Param)
    (b : Bound) : M Bound :=
  match ps with
  | [] => ret b
  | p :: rest =>
      b' <- bind_parameter factory_function p b ;;
      bind_parameters factory_function rest b'
  end.

Definition _build_parameters_with (factory_function : fid) : M Bound :=
  match signature (factories R factory_function) with
  | None => s <- get ;; raise (uninspectable factory_function s)
  | Some parameters => bind_parameters factory_function parameters Bound_init
  end.

Definition _call_factory_function_with (factory_function : fid)
    (instance_name : option string) : M value :=
  b <- _build_parameters_with factory_function ;;
  star <- iterate (args b) ;;
  extra <- mapping (kwargs b) ;;
  keywords <- merge_keywords (keyword_params b) extra ;;
  s <- get ;;
  modify (set_next_id (S (next_id s))) ;;
  instance <- of_completion
    (call (factories R factory_function)
       (map snd (positional_params b) ++ star) keywords (next_id s)) ;;
  if has_aenter instance then enter_async_context instance
  else ret instance.

Definition _build_by_factory_function_with (factory_function : fid)
    (instance_name : option string) : M value :=
  s <- get ;;
  if bool_decide (factory_function ∈ BUILTINS R) then
    raise (missing_builtin factory_function instance_name s)
  else if _Stack.contains factory_function (_instantiation_stack s) then
    raise (dependency_cycle factory_function s)
  else
    instantiating factory_function
      (instance <- _call_factory_function_with factory_function instance_name ;;
       match instance_name with
       | Some name => cache_store name instance
       | None => ret tt
       end ;;
       ret instance).
End Methods.

(** The recursion of the resolver goes through
    [_build_by_factory_function]; [fuel] bounds how deeply factory
    invocations nest. *)
Fixpoint _build_by_factory_function (fuel : nat) (factory_function : fid)
    (instance_name : option string) : M value :=
  match fuel with
  | 0 => fun s => (OutOfFuel, s)
  | S fuel' =>
      _build_by_factory_function_with (_build_by_factory_function fuel')
        factory_function instance_name
  end.

Definition _build_by_instance_name (fuel : nat) : string -> M value :=
  _build_by_instance_name_with (_build_by_factory_function fuel).

Definition _build_parameters (fuel : nat) : fid -> M Bound :=
  _build_parameters_with (_build_by_factory_function fuel).

Definition _call_factory_function (fuel : nat)
  : fid -> option string -> M value :=
  _call_factory_function_with (_build_by_factory_function fuel).

Definition _build_instance (fuel : nat) (name_or_factory : value) : M value :=
  match name_or_factory with
  | VStr name => _build_by_instance_name fuel name
  | VCallable factory => _build_by_factory_function fuel factory None
  | _ => s <- get ;; raise (unknown_type name_or_factory s)
  end.

Fixpoint build_each (fuel : nat) (names_and_factories : list value)
  : M (list value) :=
  match names_and_factories with
  | [] => ret []
  | name_or_factory :: rest =>
      instance <- _build_instance fuel name_or_factory ;;
      instances <- build_each fuel rest ;;
      ret (instance :: instances)
  end.

Definition _build_tuple (fuel : nat) (names_and_factories : list value)
  : M value :=
  instances <- build_each fuel names_and_factories ;;
  ret (VTuple instances).
End AsyncJunkie.

(** ** [inject]

    [inject] is an [asynccontextmanager]: entering it runs the generator to
    its [yield], leaving it resumes the generator there.  [inject_enter] is
    the first half and returns, with the yielded value, the suspended
    generator; [inject_exit] is the second half. *)

(** The suspended generator of [inject]: the [AsyncExitStack] its
    [async with] statement holds. *)
Record Scope := { scope_exit_stack : loc }.

Definition pop_instances_by_name_stack : M unit :=
  fun s =>
    match _Stack.pop (_instances_by_name_stack s) with
    | Some (_, rest) => (Ok tt, set_instances_by_name_stack rest s)
    | None => (Raise (IndexError "pop from empty list"), s)
    end.

(** Leaving the two [with] blocks of [inject] with [exc] in flight: the
    [finally] of [push_temporarily] pops the cache stack, then the exit
    stack closes. The result is the exception still in flight. *)
Definition unwind (E : loc) (exc : option exn) : M unit :=
  fun s =>
    match pop_instances_by_name_stack s with
    | (Ok _, s') => aexit E exc s'
    | (Raise e, s') => aexit E (Some e) s'
    | (OutOfFuel, s') => (OutOfFuel, s')
    end.

Section Inject.
Variable R : Runtime.

Definition build_targets (fuel : nat) (names_and_factories : list value)
  : M value :=
  match names_and_factories with
  | [name_or_factory] => _build_instance R fuel name_or_factory
  | _ => _build_tuple R fuel names_and_factories
  end.

Definition inject_enter (fuel : nat) (names_and_factories : list value)
  : M (value * Scope) :=
  fun s0 =>
    let E := length (exit_stacks s0) in
    let s1 := set_exit_stack E (set_exit_stacks (exit_stacks s0 ++ [[]]) s0) in
    match _Stack.peek (_instances_by_name_stack s1) with
    | None =>
        match aexit E (Some (IndexError "list index out of range")) s1 with
        | (Ok _, s') => (Raise (RuntimeError "generator didn't yield"), s')
        | (Raise e, s') => (Raise e, s')
        | (OutOfFuel, s') => (OutOfFuel, s')
        end
    | Some top =>
        let D := length (dicts s1) in
        let s2 := set_instances_by_name D
                    (set_dicts (dicts s1 ++ [dict_at top s1]) s1) in
        let s3 := set_instances_by_name_stack
                    (_Stack.push D (_instances_by_name_stack s2)) s2 in
        match build_targets fuel names_and_factories s3 with
        | (Ok v, s4) => (Ok (v, {| scope_exit_stack := E |}), s4)
        | (Raise e, s4) =>
            match unwind E (Some e) s4 with
            | (Ok _, s') => (Raise (RuntimeError "generator didn't yield"), s')
            | (Raise e', s') => (Raise e', s')
            | (OutOfFuel, s') => (OutOfFuel, s')
            end
        | (OutOfFuel, s4) => (OutOfFuel, s4)
        end
    end.

(** The caller's block ended, normally ([None]; an early [return] or
    [break] too) or with an exception. *)
Definition inject_exit (sc : Scope) (exc : option exn) : M unit :=
  unwind (scope_exit_stack sc) exc.
End Inject.

(** Modelled from the spec: the state [Junkie.__init__] leaves (the base
    class is not part of this module): a registry, a cache stack holding one
    empty cache, and nothing under construction. *)
Definition new_Junkie (context : gmap string value) : Junkie :=
  {| _context := context; _instances_by_name := 0;
     _instances_by_name_stack := [0]; _instantiation_stack := [];
     _exit_stack := 0; dicts := [∅]; exit_stacks := [[]];
     next_id := 0; awaited := []; events := [] |}.

(** * Properties *)

(** ** What a resolution step may change

    [evolves s s'] collects what the resolver methods leave alone: the
    registry, which dictionary is the current cache, the cache stack, which
    exit stack is current, every dictionary but the current cache and every
    exit stack but the current one; the current exit stack grows by the
    callbacks of exactly the resources whose acquisition was logged. *)

Definition acquired (cbs : list ExitCallback) : list Event :=
  map (fun cb => Acquire (cb_id cb)) cbs.

Definition released (cbs : list ExitCallback) : list Event :=
  map (fun cb => Release (cb_id cb)) (rev cbs).

Record evolves (s s' : Junkie) : Prop := {
  ev_context : _context s' = _context s;
  ev_cache_ref : _instances_by_name s' = _instances_by_name s;
  ev_cache_stack : _instances_by_name_stack s' = _instances_by_name_stack s;
  ev_exit_ref : _exit_stack s' = _exit_stack s;
  ev_dicts_length : length (dicts s') = length (dicts s);
  ev_dicts_other :
    forall l, l <> _instances_by_name s -> dicts s' !! l = dicts s !! l;
  ev_exits_length : length (exit_stacks s') = length (exit_stacks s);
  ev_exits_other :
    forall l, l <> _exit_stack s -> exit_stacks s' !! l = exit_stacks s !! l;
  ev_acquired :
    exists cbs,
      events s' = events s ++ acquired cbs /\
      (_exit_stack s < length (exit_stacks s) ->
       exit_stack_at (_exit_stack s) s'
       = exit_stack_at (_exit_stack s) s ++ cbs)
}.

(** A computation is [framed] when it only makes such changes, and
    [balanced] when it leaves the instantiation stack as it found it. *)
Definition framed {A} (c : M A) : Prop := forall s, evolves s (snd (c s)).

Definition balanced {A} (c : M A) : Prop :=
  forall s, _instantiation_stack (snd (c s)) = _instantiation_stack s.


(** ** Dependency chains

    [demanded_factory p s] is the factory whose construction the binder
    requests for parameter [p] in state [s]: the callable the registry
    binds to the parameter's name when the name is not cached, or the
    callable annotation of a parameter that is not resolvable by name, not
    variadic and has no default. *)
Definition demanded_factory (p : Param) (s : Junkie) : option fid :=
  if dict_contains (cache s) (p_name p) then None
  else
    match _context s !! p_name p with
    | Some (VCallable factory) => Some factory
    | Some _ => None
    | None =>
        match p_kind p with
        | VAR_POSITIONAL | VAR_KEYWORD => None
        | _ =>
            match p_default p, p_annotation p with
            | None, Some (VCallable factory) => Some factory
            | _, _ => None
            end
        end
    end.

(** The state in which the parameters of [f] are bound: [f] is on the
    instantiation stack. *)
Definition under_construction (f : fid) (s : Junkie) : Junkie :=
  set_instantiation_stack (_Stack.push f (_instantiation_stack s)) s.

Section Requires.
Variable R : Runtime.

(** The construction of [f], started in [s] with recursion budget
    [fuel] for its parameters, comes to request the construction of [g]
    in state [s']: the parameters before the requesting one were bound
    without error. *)
Definition directly_requires (fuel : nat) (f : fid) (s : Junkie)
    (g : fid) (s' : Junkie) : Prop :=
  (f ∉ BUILTINS R) /\ (f ∉ _instantiation_stack s) /\
  exists pre p post b,
    signature (factories R f) = Some (pre ++ p :: post) /\
    bind_parameters R (_build_by_factory_function R fuel) f pre Bound_init
      (under_construction f s) = (Ok b, s') /\
    demanded_factory p s' = Some g.

(** [requires N f s path h s']: the construction of [f], started in [s]
    with budget [N], requests through the factories of [path] (from [f]
    downwards, each under construction because the one before required
    it) the construction of [h] in state [s']. *)
Inductive requires
  : nat -> fid -> Junkie -> list fid -> fid -> Junkie -> Prop :=
| requires_direct fuel f s g s' :
    directly_requires (S fuel) f s g s' ->
    requires (S (S fuel)) f s [f] g s'
| requires_via fuel f s g s' path h s'' :
    directly_requires fuel f s g s' ->
    requires fuel g s' path h s'' ->
    requires (S fuel) f s (f :: path) h s''.
End Requires.

(** [sub] occurs in [s]. *)
Definition occurs_in (sub s : string) : Prop :=
  exists before after, s = before +:+ sub +:+ after.

(** ** Build targets *)

(** The names of a list resolve one after the other, each from the state
    the one before left. *)
Inductive resolves (R : Runtime) (fuel : nat)
  : list string -> Junkie -> list value -> Junkie -> Prop :=
| resolves_nil s : resolves R fuel [] s [] s
| resolves_cons name names s instance s1 instances s2 :
    _build_by_instance_name R fuel name s = (Ok instance, s1) ->
    resolves R fuel names s1 instances s2 ->
    resolves R fuel (name :: names) s (instance :: instances) s2.

(** A collection object (set, list, tuple or dictionary). *)
Definition is_collection (v : value) : bool :=
  match v with
  | VSet _ | VList _ | VTuple _ | VDict _ => true
  | _ => false
  end.

(** ** The classes of parameters *)

Definition is_variadic (p : Param) : bool :=
  match p_kind p with
  | VAR_POSITIONAL | VAR_KEYWORD => true
  | _ => false
  end.

(** The parameter's name is in the cache or in the registry (line 116). *)
Definition resolvable_by_name (p : Param) (s : Junkie) : bool :=
  dict_contains (cache s) (p_name p) || dict_contains (_context s) (p_name p).

(** ** What a factory produces *)

(** [produces R fuel f s instance s1]: with its parameters bound from
    state [s] (budget [fuel] for nested factories), [f] is called and
    returns [instance]; [s1] is the state after the call. *)
Definition produces (R : Runtime) (fuel : nat) (f : fid) (s : Junkie)
    (instance : value) (s1 : Junkie) : Prop :=
  exists b s0 star extra keywords,
    _build_parameters R fuel f s = (Ok b, s0)
    /\ fst (iterate (args b) s0) = Ok star
    /\ fst (mapping (kwargs b) s0) = Ok extra
    /\ fst (merge_keywords (keyword_params b) extra s0) = Ok keywords
    /\ call (factories R f) (map snd (positional_params b) ++ star) keywords
         (next_id s0) = Returns instance
    /\ s1 = set_next_id (S (next_id s0)) s0.

(** ** Build scopes *)

(** The state in which the resolution of a build starts, when the cache
    stack is not empty: a new exit stack is current, and a copy of the top
    cache is the current cache and the new top of the cache stack. *)
Definition seeded (top : loc) (s0 : Junkie) : Junkie :=
  let s1 := set_exit_stack (length (exit_stacks s0))
              (set_exit_stacks (exit_stacks s0 ++ [[]]) s0) in
  let D := length (dicts s1) in
  let s2 := set_instances_by_name D
              (set_dicts (dicts s1 ++ [dict_at top s1]) s1) in
  set_instances_by_name_stack (_Stack.push D (_instances_by_name_stack s2)) s2.

Definition identities (cbs : list ExitCallback) : list nat := map cb_id cbs.

(** ** Termination

    A finite universe [dom] of callables is closed for a registry when the
    callables the registry binds and the callable annotations of the
    parameters of the callables of [dom] are all in [dom]. *)
Definition callable_in (dom : list fid) (v : value) : bool :=
  match v with
  | VCallable g => bool_decide (g ∈ dom)
  | _ => true
  end.

Definition registry_closed (dom : list fid) (ctx : gmap string value) : bool :=
  forallb (fun kv => callable_in dom (snd kv)) (map_to_list ctx).

Definition annotations_closed (R : Runtime) (dom : list fid) : bool :=
  forallb
    (fun f =>
       match signature (factories R f) with
       | Some parameters =>
           forallb (fun p => match p_annotation p with
                             | Some v => callable_in dom v
                             | None => true
                             end) parameters
       | None => true
       end) dom.

(** The computation does not exhaust its recursion budget from [s]. *)
Definition runs {A} (c : M A) (s : Junkie) : Prop := fst (c s) <> OutOfFuel.

(** The states a build resolves its targets in with budget [fuel]: the
    registry is closed for [dom] and the budget exceeds the number of
    callables not under construction. *)
Definition budgeted (dom : list fid) (fuel : nat) (s : Junkie) : Prop :=
  registry_closed dom (_context s) = true
  /\ NoDup (_instantiation_stack s)
  /\ (forall g, g ∈ _instantiation_stack s -> g ∈ dom)
  /\ length dom < fuel + length (_instantiation_stack s).

(** ** Concrete registries

    The scenarios of the specification and of the tests, and small ones
    that exercise one branch each. *)

Definition named (name : string) : Param :=
  {| p_name := name; p_kind := POSITIONAL_OR_KEYWORD; p_default := None;
     p_annotation := None |}.

(** A class or function defined at [line] of [file], taking [parameters],
    whose call builds a new object. *)
Definition plain_class (file : string) (line : nat) (parameters : list Param)
  : Factory :=
  {| signature := Some parameters; source := Plain (Some (file, line));
     call := fun _ _ id => Returns (VObj id) |}.

Definition no_str (v : value) : string := "<object>".

(** A value spread as a positional argument list, shown as a tuple. *)
Definition arguments (positional : list value)
    (keywords : list (string * value)) : value :=
  VTuple [VTuple positional; VDict keywords].

(** *** A mutual cycle: the registry binds [a] to [f(b)] and [b] to
    [g(a)]. *)
Module Mutual.
Definition f : fid := 0.
Definition g : fid := 1.
Definition runtime : Runtime :=
{| get_factory_name := fun x => if bool_decide (x = f) then "f" else "g";
   BUILTINS := [];
   factories := fun x =>
     if bool_decide (x = f) then plain_class "app.py" 3 [named "b"]
     else plain_class "app.py" 7 [named "a"];
   py_str := no_str |}.
Definition junkie : Junkie :=
new_Junkie {[ "a" := VCallable f; "b" := VCallable g ]}.
End Mutual.

(** *** One name bound to a class, and one bound to a coroutine
    function. *)
Module Single.
Definition A : fid := 0.
Definition work : fid := 1.
Definition runtime : Runtime :=
{| get_factory_name := fun x => if bool_decide (x = A) then "A" else "work";
   BUILTINS := [];
   factories := fun x =>
     if bool_decide (x = A) then plain_class "app.py" 1 []
     else {| signature := Some []; source := Plain (Some ("app.py", 5));
             call := fun _ _ id => Returns (VCoroutine id (Returns (VStr "done"))) |};
   py_str := no_str |}.
Definition junkie : Junkie :=
new_Junkie {[ "a" := VCallable A; "w" := VCallable work ]}.
End Single.

(** *** The registry of the context test: two literals and a function of
    both. *)
Module Text.
Definition text : fid := 0.
Definition concat (positional : list value) : completion :=
match positional with
| [VStr prefix; VStr suffix] => Returns (VStr (prefix +:+ suffix))
| _ => Throws (TypeError "unsupported operand")
end.
Definition runtime : Runtime :=
{| get_factory_name := fun _ => "<lambda>";
   BUILTINS := [];
   factories := fun _ =>
     {| signature := Some [named "prefix"; named "suffix"];
        source := Plain (Some ("context_test.py", 16));
        call := fun positional _ _ => concat positional |};
   py_str := no_str |}.
Definition junkie : Junkie :=
new_Junkie {[ "prefix" := VStr "abc"; "suffix" := VStr "xyz";
              "text" := VCallable text ]}.
End Text.

(** A function that returns the arguments it was called with. *)
Definition echo (file : string) (line : nat) (parameters : list Param)
  : Factory :=
  {| signature := Some parameters; source := Plain (Some (file, line));
     call := fun positional keywords _ => Returns (arguments positional keywords) |}.

(** *** [def f(a="x", b="y")]. *)
Module Defaults.
Definition f : fid := 0.
Definition defaulted (name : string) (d : string) : Param :=
{| p_name := name; p_kind := POSITIONAL_OR_KEYWORD;
   p_default := Some (VStr d); p_annotation := None |}.
Definition runtime : Runtime :=
{| get_factory_name := fun _ => "f"; BUILTINS := [];
   factories := fun _ =>
     echo "app.py" 1 [defaulted "a" "x"; defaulted "b" "y"];
   py_str := no_str |}.
(** Both names are bound. *)
Definition both : Junkie :=
new_Junkie {[ "a" := VStr "A"; "b" := VStr "B" ]}.
(** Only the second name is bound. *)
Definition second : Junkie := new_Junkie {[ "b" := VStr "B" ]}.
End Defaults.

(** *** A function with a star parameter [args] and a double-star
    parameter [kwargs]. *)
Module Variadic.
Definition f : fid := 0.
Definition star (name : string) (k : ParameterKind) : Param :=
{| p_name := name; p_kind := k; p_default := None; p_annotation := None |}.
Definition runtime : Runtime :=
{| get_factory_name := fun _ => "f"; BUILTINS := [];
   factories := fun _ =>
     echo "app.py" 1 [star "args" VAR_POSITIONAL; star "kwargs" VAR_KEYWORD];
   py_str := no_str |}.
(** The registry happens to bind the name [args]. *)
Definition bound : Junkie :=
new_Junkie {[ "args" := VTuple [VStr "x"; VStr "y"] ]}.
Definition unbound : Junkie := new_Junkie ∅.
End Variadic.

(** *** [def f(x: A)] with a class [A], and an empty registry. *)
Module Annotated.
Definition f : fid := 0.
Definition A : fid := 1.
Definition x : Param :=
{| p_name := "x"; p_kind := POSITIONAL_OR_KEYWORD; p_default := None;
   p_annotation := Some (VCallable A) |}.
Definition runtime : Runtime :=
{| get_factory_name := fun g => if bool_decide (g = f) then "f" else "A";
   BUILTINS := [];
   factories := fun g =>
     if bool_decide (g = f) then echo "app.py" 4 [x]
     else plain_class "app.py" 1 [];
   py_str := no_str |}.
Definition junkie : Junkie := new_Junkie ∅.
End Annotated.

(** *** The test of the suspending resolver: [text] is bound to a function
    decorated with [asynccontextmanager], whose generator yields a
    string. *)
Module AsyncTest.
Definition async_test : fid := 0.
Definition runtime : Runtime :=
{| get_factory_name := fun _ => "async_test"; BUILTINS := [];
   factories := fun _ =>
     {| signature := Some [];
        source := Wrapper (Plain (Some ("test_async_support.py", 9)));
        call := fun _ _ id =>
          Returns (VScoped id
                     (Returns (VStr "hello from async context manager"))
                     ExitFalse) |};
   py_str := no_str |}.
Definition my_junkie : Junkie :=
new_Junkie {[ "text" := VCallable async_test ]}.
End AsyncTest.

(** *** Three resources; the acquisition of the third can be made to
    fail. *)
Module Resources.
Definition resource (enter : completion) : Factory :=
{| signature := Some []; source := Plain None;
   call := fun _ _ id => Returns (VScoped id enter ExitFalse) |}.
Definition runtime (third : completion) : Runtime :=
{| get_factory_name := fun f => "r" +:+ pretty f; BUILTINS := [];
   factories := fun f =>
     if bool_decide (f = 2) then resource third
     else resource (Returns VNone);
   py_str := no_str |}.
Definition junkie : Junkie :=
new_Junkie {[ "r0" := VCallable 0; "r1" := VCallable 1;
              "r2" := VCallable 2 ]}.
Definition targets : list value := [VStr "r0"; VStr "r1"; VStr "r2"].
End Resources.

(** *** Factories that cannot be built: [needs_int(count: int)] with the
    builtin [int], [needs_x(x)] with nothing to resolve [x] from, an object
    whose signature cannot be inspected, a function that raises and a
    resource whose acquisition raises. *)
Module Failing.
Definition needs_int : fid := 0.
Definition int : fid := 1.
Definition needs_x : fid := 2.
Definition opaque : fid := 3.
Definition raising : fid := 4.
Definition broken_resource : fid := 5.
Definition count : Param :=
  {| p_name := "count"; p_kind := POSITIONAL_OR_KEYWORD; p_default := None;
     p_annotation := Some (VCallable int) |}.
Definition factory (f : fid) : Factory :=
  if bool_decide (f = needs_int) then plain_class "app.py" 1 [count]
  else if bool_decide (f = int) then
    {| signature := None; source := Plain None;
       call := fun _ _ _ => Returns (VStr "0") |}
  else if bool_decide (f = needs_x) then plain_class "app.py" 5 [named "x"]
  else if bool_decide (f = opaque) then
    {| signature := None; source := Plain (Some ("app.py", 9));
       call := fun _ _ id => Returns (VObj id) |}
  else if bool_decide (f = raising) then
    {| signature := Some []; source := Plain (Some ("app.py", 12));
       call := fun _ _ _ => Throws (UserException "boom") |}
  else
    {| signature := Some []; source := Plain (Some ("app.py", 15));
       call := fun _ _ id =>
         Returns (VScoped id (Throws (UserException "busy")) ExitFalse) |}.
Definition runtime : Runtime :=
  {| get_factory_name := fun f => "f" +:+ pretty f; BUILTINS := [int];
     factories := factory; py_str := no_str |}.
Definition junkie : Junkie := new_Junkie ∅.
End Failing.

(** * Further vocabulary *)

(** [called R fuel f s c s1]: with its parameters bound from state [s]
    (budget [fuel] for nested factories), [f] is called and the call
    completes with [c], returning or raising; [s1] is the state after the
    call. *)
Definition called (R : Runtime) (fuel : nat) (f : fid) (s : Junkie)
    (c : completion) (s1 : Junkie) : Prop :=
  exists b s0 star extra keywords,
    _build_parameters R fuel f s = (Ok b, s0)
    /\ fst (iterate (args b) s0) = Ok star
    /\ fst (mapping (kwargs b) s0) = Ok extra
    /\ fst (merge_keywords (keyword_params b) extra s0) = Ok keywords
    /\ call (factories R f) (map snd (positional_params b) ++ star) keywords
         (next_id s0) = c
    /\ s1 = set_next_id (S (next_id s0)) s0.

(** The state after the [finally] of [push_temporarily] has popped the
    factory whose construction ended in [s1]. *)
Definition constructed (s s1 : Junkie) : Junkie :=
  set_instantiation_stack (_instantiation_stack s) s1.

(** The names of the parameters passed by position and by keyword. *)
Definition positional_names (b : Bound) : list string :=
  map fst (positional_params b).

Definition keyword_names (b : Bound) : list string :=
  map fst (keyword_params b).

(** What the binder has collected is in the order of the parameters [ps]
    it comes from, and no parameter is in both collections. *)
Definition in_declaration_order (ps : list Param) (b : Bound) : Prop :=
  sublist (positional_names b) (map p_name ps)
  /\ sublist (keyword_names b) (map p_name ps)
  /\ forall n, n ∈ positional_names b -> n ∉ keyword_names b.

(** A computation keeps a relation between the state it starts from and
    the state it ends in. *)
Definition keeps (Rel : Junkie -> Junkie -> Prop) {A} (c : M A) : Prop :=
  forall s, Rel s (snd (c s)).

(** No cached name is lost between [s] and [s']. *)
Definition retains_names (s s' : Junkie) : Prop :=
  _instances_by_name s' = _instances_by_name s
  /\ forall name, is_Some (cache s !! name) -> is_Some (cache s' !! name).

(** The dictionaries are the same in [s] and [s']. *)
Definition same_dicts (s s' : Junkie) : Prop := dicts s' = dicts s.

(** [_Stack.__len__]. *)
Definition _Stack_len {A} (st : list A) : nat := length st.

(** ** [_LogParams]

    [sep.join(items)]. *)
Fixpoint join (sep : string) (items : list string) : string :=
  match items with
  | [] => ""
  | [item] => item
  | item :: rest => item +:+ sep +:+ join sep rest
  end.

(** [_LogParams.__str__] on the positional arguments [args] and the
    keyword arguments [kwargs] it was made from, for Python's [str] and
    [repr] on values: the positional arguments as [str] gives them, then each
    keyword argument as [key=repr(value)], separated by a comma and a
    space. *)
Definition _LogParams_str (str repr : value -> string) (args : list value)
    (kwargs : list (string * value)) : string :=
  let arg_params := map str args in
  let kwarg_params := map (fun kv => fst kv +:+ "=" +:+ repr (snd kv)) kwargs in
  join ", " (arg_params ++ kwarg_params).

(** * Proofs *)

Lemma evolves_refl s : evolves s s.
Proof.
  split; try reflexivity.
  exists []. split; [by rewrite app_nil_r | intros _; by rewrite app_nil_r].
Qed.

Lemma evolves_trans s1 s2 s3 : evolves s1 s2 -> evolves s2 s3 -> evolves s1 s3.
Proof.
  intros [c1 r1 k1 e1 dl1 do1 el1 eo1 (cbs1 & ev1 & st1)]
         [c2 r2 k2 e2 dl2 do2 el2 eo2 (cbs2 & ev2 & st2)].
  split; try congruence.
  - intros l Hl. rewrite do2; [by apply do1 | congruence].
  - intros l Hl. rewrite eo2; [by apply eo1 | congruence].
  - exists (cbs1 ++ cbs2). split.
    + rewrite ev2, ev1. unfold acquired. by rewrite map_app, app_assoc.
    + intros Hlt. rewrite e1 in st2. rewrite st2 by lia.
      rewrite st1 by done. by rewrite app_assoc.
Qed.

Lemma framed_ret {A} (a : A) : framed (ret a).
Proof. intros s. apply evolves_refl. Qed.

Lemma framed_raise {A} e : framed (@raise A e).
Proof. intros s. apply evolves_refl. Qed.

Lemma framed_get : framed get.
Proof. intros s. apply evolves_refl. Qed.

Lemma framed_bind {A B} (c : M A) (k : A -> M B) :
  framed c -> (forall a, framed (k a)) -> framed (bind c k).
Proof.
  intros Hc Hk s. unfold bind. specialize (Hc s).
  destruct (c s) as [[a | e |] s1]; simpl in *; try done.
  eapply evolves_trans; [exact Hc | apply Hk].
Qed.

Lemma balanced_ret {A} (a : A) : balanced (ret a).
Proof. by intros s. Qed.

Lemma balanced_raise {A} e : balanced (@raise A e).
Proof. by intros s. Qed.

Lemma balanced_get : balanced get.
Proof. by intros s. Qed.

Lemma balanced_bind {A B} (c : M A) (k : A -> M B) :
  balanced c -> (forall a, balanced (k a)) -> balanced (bind c k).
Proof.
  intros Hc Hk s. unfold bind. specialize (Hc s).
  destruct (c s) as [[a | e |] s1]; simpl in *; try done.
  by rewrite Hk.
Qed.

Create HintDb frame.
#[local] Hint Resolve framed_ret framed_raise framed_get
  balanced_ret balanced_raise balanced_get : frame.

Lemma evolves_same s s' :
  _context s' = _context s ->
  _instances_by_name s' = _instances_by_name s ->
  _instances_by_name_stack s' = _instances_by_name_stack s ->
  _exit_stack s' = _exit_stack s ->
  dicts s' = dicts s ->
  exit_stacks s' = exit_stacks s ->
  events s' = events s ->
  evolves s s'.
Proof.
  intros Hc Hr Hk He Hd Hx Hev.
  split; try congruence.
  exists []. unfold exit_stack_at. rewrite Hx, Hev.
  split; [by rewrite app_nil_r | intros _; by rewrite app_nil_r].
Qed.

Lemma framed_modify (f : Junkie -> Junkie) :
  (forall s, evolves s (f s)) -> framed (modify f).
Proof. intros H s. apply H. Qed.

Lemma framed_of_completion c : framed (of_completion c).
Proof. destruct c; simpl; auto with frame. Qed.

Lemma balanced_of_completion c : balanced (of_completion c).
Proof. destruct c; simpl; auto with frame. Qed.

Lemma framed_iterate v : framed (iterate v).
Proof. destruct v; simpl; auto with frame. Qed.

Lemma balanced_iterate v : balanced (iterate v).
Proof. destruct v; simpl; auto with frame. Qed.

Lemma framed_mapping v : framed (mapping v).
Proof. destruct v; simpl; auto with frame. Qed.

Lemma balanced_mapping v : balanced (mapping v).
Proof. destruct v; simpl; auto with frame. Qed.

Lemma framed_merge_keywords kw1 kw2 : framed (merge_keywords kw1 kw2).
Proof. unfold merge_keywords. destruct (forallb _ _); auto with frame. Qed.

Lemma balanced_merge_keywords kw1 kw2 : balanced (merge_keywords kw1 kw2).
Proof. unfold merge_keywords. destruct (forallb _ _); auto with frame. Qed.

#[local] Hint Resolve framed_of_completion balanced_of_completion
  framed_iterate balanced_iterate framed_mapping balanced_mapping
  framed_merge_keywords balanced_merge_keywords : frame.

Lemma framed_await v : framed (await v).
Proof.
  destruct v; simpl; auto with frame.
  apply framed_bind; [auto with frame |]. intros s.
  destruct (bool_decide _); [auto with frame |].
  apply framed_bind; [| auto with frame].
  apply framed_modify. intros s'. by apply evolves_same.
Qed.

Lemma balanced_await v : balanced (await v).
Proof.
  destruct v; simpl; auto with frame.
  apply balanced_bind; [auto with frame |]. intros s.
  destruct (bool_decide _); [auto with frame |].
  apply balanced_bind; [| auto with frame]. by intros s'.
Qed.

Lemma framed_enter_async_context cm : framed (enter_async_context cm).
Proof.
  destruct cm as [| | | | | | | | |id [r | e] x]; simpl; auto with frame.
  apply framed_bind; [| auto with frame].
  apply framed_modify. intros s. split; simpl; try reflexivity.
  - by rewrite length_insert.
  - intros l Hl. by rewrite list_lookup_insert_ne.
  - exists [{| cb_id := id; cb_exit := x |}]. split; [done |].
    intros Hlt. unfold exit_stack_at at 1. simpl.
    by rewrite list_lookup_insert_eq.
Qed.

Lemma balanced_enter_async_context cm : balanced (enter_async_context cm).
Proof.
  destruct cm as [| | | | | | | | |id [r | e] x]; by intros st.
Qed.

#[local] Hint Resolve framed_await balanced_await
  framed_enter_async_context balanced_enter_async_context : frame.

Section FrameOfMethods.
Variable R : Runtime.

Lemma framed_cache_store name v : framed (cache_store name v).
Proof.
  apply framed_modify. intros s. split; simpl; try reflexivity.
  - by rewrite length_insert.
  - intros l Hl. by rewrite list_lookup_insert_ne.
  - exists []. split; [by rewrite app_nil_r | intros _; by rewrite app_nil_r].
Qed.

Lemma balanced_cache_store name v : balanced (cache_store name v).
Proof. by intros s. Qed.

Lemma pop_push {A} (x : A) (st : list A) :
  _Stack.pop (_Stack.push x st) = Some (x, st).
Proof.
  unfold _Stack.pop, _Stack.push.
  by rewrite last_snoc, removelast_last.
Qed.

Lemma framed_instantiating {A} item (body : M A) :
  framed body -> framed (instantiating item body).
Proof.
  intros Hb. unfold instantiating.
  apply framed_bind.
  - apply framed_modify. intros s. by apply evolves_same.
  - intros _ s. unfold try_finally. specialize (Hb s).
    destruct (body s) as [r s1]. simpl in Hb.
    assert (evolves s1 (snd (pop_instantiation_stack s1))) as Hp.
    { unfold pop_instantiation_stack.
      destruct (_Stack.pop _) as [[? rest] |]; simpl;
        [by apply evolves_same | apply evolves_refl]. }
    destruct (pop_instantiation_stack s1) as [[[] | e |] s2]; simpl in *;
      by eapply evolves_trans.
Qed.

Lemma balanced_instantiating {A} item (body : M A) :
  balanced body -> balanced (instantiating item body).
Proof.
  intros Hb s. unfold instantiating, bind, modify, try_finally.
  specialize (Hb (set_instantiation_stack
                    (_Stack.push item (_instantiation_stack s)) s)).
  destruct (body _) as [r s1]. simpl in Hb.
  unfold pop_instantiation_stack. rewrite Hb, pop_push.
  by destruct r.
Qed.
End FrameOfMethods.

#[local] Hint Resolve framed_cache_store balanced_cache_store : frame.

(** The methods, for any recursive call that is itself framed and
    balanced. *)
Section FrameOfResolver.
Variable R : Runtime.
Variable rec : fid -> option string -> M value.
Hypothesis framed_rec : forall f n, framed (rec f n).
Hypothesis balanced_rec : forall f n, balanced (rec f n).

Lemma framed_build_by_instance_name_with name :
  framed (_build_by_instance_name_with R rec name).
Proof.
  unfold _build_by_instance_name_with.
  apply framed_bind; [auto with frame |]. intros s.
  destruct (dict_contains (cache s) name); [auto with frame |].
  destruct (dict_contains (_context s) name); [| auto with frame].
  destruct (default VNone _); auto with frame.
Qed.

Lemma balanced_build_by_instance_name_with name :
  balanced (_build_by_instance_name_with R rec name).
Proof.
  unfold _build_by_instance_name_with.
  apply balanced_bind; [auto with frame |]. intros s.
  destruct (dict_contains (cache s) name); [auto with frame |].
  destruct (dict_contains (_context s) name); [| auto with frame].
  destruct (default VNone _); auto with frame.
Qed.

Lemma framed_bind_parameter f p b : framed (bind_parameter R rec f p b).
Proof.
  unfold bind_parameter.
  apply framed_bind; [auto with frame |]. intros s.
  destruct (_ || _).
  { apply framed_bind; [apply framed_build_by_instance_name_with |].
    auto with frame. }
  destruct (p_kind p); auto with frame;
    (destruct (p_default p); [auto with frame |]);
    (destruct (p_annotation p) as [[] |]; auto with frame);
    (apply framed_bind; [apply framed_rec | auto with frame]).
Qed.

Lemma balanced_bind_parameter f p b : balanced (bind_parameter R rec f p b).
Proof.
  unfold bind_parameter.
  apply balanced_bind; [auto with frame |]. intros s.
  destruct (_ || _).
  { apply balanced_bind; [apply balanced_build_by_instance_name_with |].
    auto with frame. }
  destruct (p_kind p); auto with frame;
    (destruct (p_default p); [auto with frame |]);
    (destruct (p_annotation p) as [[] |]; auto with frame);
    (apply balanced_bind; [apply balanced_rec | auto with frame]).
Qed.

Lemma framed_bind_parameters f ps : forall b, framed (bind_parameters R rec f ps b).
Proof.
  induction ps as [| p rest IH]; intros b; simpl; [auto with frame |].
  apply framed_bind; [apply framed_bind_parameter | auto].
Qed.

Lemma balanced_bind_parameters f ps :
  forall b, balanced (bind_parameters R rec f ps b).
Proof.
  induction ps as [| p rest IH]; intros b; simpl; [auto with frame |].
  apply balanced_bind; [apply balanced_bind_parameter | auto].
Qed.

Lemma framed_build_parameters_with f : framed (_build_parameters_with R rec f).
Proof.
  unfold _build_parameters_with. destruct (signature _).
  - apply framed_bind_parameters.
  - apply framed_bind; auto with frame.
Qed.

Lemma balanced_build_parameters_with f :
  balanced (_build_parameters_with R rec f).
Proof.
  unfold _build_parameters_with. destruct (signature _).
  - apply balanced_bind_parameters.
  - apply balanced_bind; auto with frame.
Qed.

Lemma framed_call_factory_function_with f n :
  framed (_call_factory_function_with R rec f n).
Proof.
  unfold _call_factory_function_with.
  apply framed_bind; [apply framed_build_parameters_with |]. intros b.
  apply framed_bind; [auto with frame |]. intros star.
  apply framed_bind; [auto with frame |]. intros extra.
  apply framed_bind; [auto with frame |]. intros keywords.
  apply framed_bind; [auto with frame |]. intros s.
  apply framed_bind.
  { apply framed_modify. intros s'. by apply evolves_same. }
  intros _. apply framed_bind; [auto with frame |]. intros instance.
  destruct (has_aenter instance); auto with frame.
Qed.

Lemma balanced_call_factory_function_with f n :
  balanced (_call_factory_function_with R rec f n).
Proof.
  unfold _call_factory_function_with.
  apply balanced_bind; [apply balanced_build_parameters_with |]. intros b.
  apply balanced_bind; [auto with frame |]. intros star.
  apply balanced_bind; [auto with frame |]. intros extra.
  apply balanced_bind; [auto with frame |]. intros keywords.
  apply balanced_bind; [auto with frame |]. intros s.
  apply balanced_bind; [by intros s' |].
  intros _. apply balanced_bind; [auto with frame |]. intros instance.
  destruct (has_aenter instance); auto with frame.
Qed.

Lemma framed_build_by_factory_function_with f n :
  framed (_build_by_factory_function_with R rec f n).
Proof.
  unfold _build_by_factory_function_with.
  apply framed_bind; [auto with frame |]. intros s.
  destruct (bool_decide _); [auto with frame |].
  destruct (_Stack.contains _ _); [auto with frame |].
  apply framed_instantiating.
  apply framed_bind; [apply framed_call_factory_function_with |].
  intros instance. apply framed_bind; [| auto with frame].
  destruct n; auto with frame.
Qed.

Lemma balanced_build_by_factory_function_with f n :
  balanced (_build_by_factory_function_with R rec f n).
Proof.
  unfold _build_by_factory_function_with.
  apply balanced_bind; [auto with frame |]. intros s.
  destruct (bool_decide _); [auto with frame |].
  destruct (_Stack.contains _ _); [auto with frame |].
  apply balanced_instantiating.
  apply balanced_bind; [apply balanced_call_factory_function_with |].
  intros instance. apply balanced_bind; [| auto with frame].
  destruct n; auto with frame.
Qed.
End FrameOfResolver.

Section FrameOfFuel.
Variable R : Runtime.

Lemma framed_build_by_factory_function fuel :
  forall f n, framed (_build_by_factory_function R fuel f n).
Proof.
  induction fuel as [| fuel IH]; intros f n; simpl.
  - intros s. apply evolves_refl.
  - by apply framed_build_by_factory_function_with.
Qed.

Lemma balanced_build_by_factory_function fuel :
  forall f n, balanced (_build_by_factory_function R fuel f n).
Proof.
  induction fuel as [| fuel IH]; intros f n; simpl.
  - by intros s.
  - by apply balanced_build_by_factory_function_with.
Qed.

Lemma framed_build_by_instance_name fuel name :
  framed (_build_by_instance_name R fuel name).
Proof.
  apply framed_build_by_instance_name_with.
  apply framed_build_by_factory_function.
Qed.

Lemma balanced_build_by_instance_name fuel name :
  balanced (_build_by_instance_name R fuel name).
Proof.
  apply balanced_build_by_instance_name_with.
  apply balanced_build_by_factory_function.
Qed.

Lemma framed_build_instance fuel v : framed (_build_instance R fuel v).
Proof.
  destruct v; simpl;
    try solve [apply framed_bind; auto with frame].
  - apply framed_build_by_instance_name.
  - apply framed_build_by_factory_function.
Qed.

Lemma balanced_build_instance fuel v : balanced (_build_instance R fuel v).
Proof.
  destruct v; simpl;
    try solve [apply balanced_bind; auto with frame].
  - apply balanced_build_by_instance_name.
  - apply balanced_build_by_factory_function.
Qed.

Lemma framed_build_each fuel vs : framed (build_each R fuel vs).
Proof.
  induction vs as [| v rest IH]; simpl; [auto with frame |].
  apply framed_bind; [apply framed_build_instance |]. intros instance.
  apply framed_bind; [exact IH | auto with frame].
Qed.

Lemma balanced_build_each fuel vs : balanced (build_each R fuel vs).
Proof.
  induction vs as [| v rest IH]; simpl; [auto with frame |].
  apply balanced_bind; [apply balanced_build_instance |]. intros instance.
  apply balanced_bind; [exact IH | auto with frame].
Qed.

Lemma framed_build_targets fuel vs : framed (build_targets R fuel vs).
Proof.
  assert (framed (_build_tuple R fuel vs)) as Ht.
  { apply framed_bind; [apply framed_build_each | auto with frame]. }
  destruct vs as [| v [| w rest]]; simpl; try exact Ht.
  apply framed_build_instance.
Qed.

Lemma balanced_build_targets fuel vs : balanced (build_targets R fuel vs).
Proof.
  assert (balanced (_build_tuple R fuel vs)) as Ht.
  { apply balanced_bind; [apply balanced_build_each | auto with frame]. }
  destruct vs as [| v [| w rest]]; simpl; try exact Ht.
  apply balanced_build_instance.
Qed.
End FrameOfFuel.

(** ** Dependency cycles *)

Lemma dict_contains_true (d : gmap string value) name :
  dict_contains d name = true <-> is_Some (d !! name).
Proof. unfold dict_contains. by rewrite bool_decide_eq_true. Qed.

Lemma dict_contains_false (d : gmap string value) name :
  dict_contains d name = false <-> d !! name = None.
Proof.
  unfold dict_contains. rewrite bool_decide_eq_false.
  by rewrite eq_None_not_Some.
Qed.

Lemma dict_contains_lookup (d : gmap string value) name v :
  d !! name = Some v -> dict_contains d name = true.
Proof. intros H. apply dict_contains_true. by exists v. Qed.

Lemma string_app_assoc (a b c : string) : (a +:+ b) +:+ c = a +:+ (b +:+ c).
Proof.
  induction a as [| ch a IH]; [done |].
  change (String ch ((a +:+ b) +:+ c) = String ch (a +:+ (b +:+ c))).
  by rewrite IH.
Qed.

Lemma string_app_nil_r (a : string) : a +:+ "" = a.
Proof.
  induction a as [| ch a IH]; [done |].
  change (String ch (a +:+ "") = String ch a). by rewrite IH.
Qed.

Lemma bind_Ok {A B} (c : M A) (k : A -> M B) s a s' :
  c s = (Ok a, s') -> bind c k s = k a s'.
Proof. intros H. unfold bind. by rewrite H. Qed.

Lemma bind_Raise {A B} (c : M A) (k : A -> M B) s e s' :
  c s = (Raise e, s') -> bind c k s = (Raise e, s').
Proof. intros H. unfold bind. by rewrite H. Qed.

Section Cycles.
Variable R : Runtime.

Lemma stack_entries_occurs st : forall idx i g,
  st !! i = Some g ->
  occurs_in (stack_entry R (idx + i) g) (stack_entries R idx st).
Proof.
  induction st as [| f rest IH]; intros idx i g Hi; [done |].
  destruct i as [| i]; simpl in Hi.
  - injection Hi as ->. exists "", (stack_entries R (S idx) rest).
    by rewrite Nat.add_0_r.
  - destruct (IH (S idx) i g Hi) as (before & after & Heq).
    exists (stack_entry R idx f +:+ before), after.
    simpl. rewrite Heq.
    replace (idx + S i) with (S idx + i) by lia.
    by rewrite string_app_assoc.
Qed.

(** Every factory on the stack has its line, with its name and source
    location, in the rendered trace. *)
Lemma trace_lists_stack s i g :
  _instantiation_stack s !! i = Some g ->
  occurs_in (stack_entry R i g) (trace R s).
Proof.
  intros Hi. unfold trace, _InstantiationStack_str.
  destruct (stack_entries_occurs _ 0 i g Hi) as (before & after & Heq).
  destruct (_instantiation_stack s) as [| f rest]; [done |].
  exists before, (after +:+ newline).
  rewrite Heq. by rewrite !string_app_assoc.
Qed.

Lemma bind_parameters_app rec f pre post b s :
  bind_parameters R rec f (pre ++ post) b s
  = bind (bind_parameters R rec f pre b)
      (fun b' => bind_parameters R rec f post b') s.
Proof.
  revert b s. induction pre as [| p pre IH]; intros b s; [done |].
  simpl. unfold bind.
  destruct (bind_parameter R rec f p b s) as [[b1 | e |] s1];
    first [done | by rewrite IH].
Qed.

Lemma bind_parameter_demand rec f p b s g :
  demanded_factory p s = Some g ->
  bind_parameter R rec f p b s
  = bind (rec g (Some (p_name p))) (fun v => ret (place p v b)) s.
Proof.
  unfold demanded_factory, bind_parameter, _build_by_instance_name_with.
  unfold bind at 1, get.
  destruct (dict_contains (cache s) (p_name p)) eqn:Hc; [done |]. simpl.
  destruct (_context s !! p_name p) as [v |] eqn:Hx.
  - rewrite (dict_contains_lookup _ _ _ Hx).
    intros Hg. unfold bind at 1 2. rewrite Hc.
    rewrite (dict_contains_lookup _ _ _ Hx), Hx. simpl.
    destruct v; try done. by injection Hg as ->.
  - apply dict_contains_false in Hx. rewrite Hx.
    destruct (p_kind p); try done;
      (destruct (p_default p); [done |]);
      (destruct (p_annotation p) as [[] |]; try done);
      intros Hg; by injection Hg as ->.
Qed.

Lemma build_by_factory_unfold rec f name s :
  f ∉ BUILTINS R -> f ∉ _instantiation_stack s ->
  _build_by_factory_function_with R rec f name s
  = try_finally
      (instance <- _call_factory_function_with R rec f name ;;
       match name with
       | Some n => cache_store n instance
       | None => ret tt
       end ;;
       ret instance)
      pop_instantiation_stack (under_construction f s).
Proof.
  intros Hb Hs. unfold _build_by_factory_function_with, _Stack.contains.
  unfold bind at 1, get.
  rewrite (bool_decide_eq_false_2 _ Hb), (bool_decide_eq_false_2 _ Hs).
  done.
Qed.

Lemma construct_raises rec f name s pre p post b s' e s1 :
  (forall g n, balanced (rec g n)) ->
  f ∉ BUILTINS R -> f ∉ _instantiation_stack s ->
  signature (factories R f) = Some (pre ++ p :: post) ->
  bind_parameters R rec f pre Bound_init (under_construction f s) = (Ok b, s') ->
  bind_parameter R rec f p b s' = (Raise e, s1) ->
  _build_by_factory_function_with R rec f name s
  = (Raise e, set_instantiation_stack (_instantiation_stack s) s1).
Proof.
  intros Hrec Hb Hs Hsig Hpre Hp.
  rewrite build_by_factory_unfold by done.
  unfold try_finally.
  assert (bind_parameters R rec f (pre ++ p :: post) Bound_init
            (under_construction f s) = (Raise e, s1)) as Hall.
  { rewrite bind_parameters_app. rewrite (bind_Ok _ _ _ _ _ Hpre). simpl.
    by rewrite (bind_Raise _ _ _ _ _ Hp). }
  erewrite bind_Raise; last first.
  { unfold _call_factory_function_with. apply bind_Raise.
    unfold _build_parameters_with. rewrite Hsig. exact Hall. }
  unfold pop_instantiation_stack.
  pose proof (balanced_bind_parameters R rec Hrec f (pre ++ p :: post)
                Bound_init (under_construction f s)) as Hst.
  rewrite Hall in Hst. simpl in Hst. rewrite Hst, pop_push. done.
Qed.

(** Lines 68-72: a factory found on the instantiation stack is not
    invoked; the error carries the rendered stack. *)
Lemma cycle_detected fuel f name s :
  f ∉ BUILTINS R -> f ∈ _instantiation_stack s ->
  _build_by_factory_function R (S fuel) f name s
  = (Raise (dependency_cycle R f s), s).
Proof.
  intros Hb Hs. simpl.
  unfold _build_by_factory_function_with, _Stack.contains.
  unfold bind at 1, get.
  by rewrite (bool_decide_eq_false_2 _ Hb), (bool_decide_eq_true_2 _ Hs).
Qed.

Lemma directly_requires_stack fuel f s g s' :
  directly_requires R fuel f s g s' ->
  _instantiation_stack s' = _instantiation_stack s ++ [f].
Proof.
  intros (_ & _ & pre & p & post & b & _ & Hpre & _).
  pose proof (balanced_bind_parameters R _
                (balanced_build_by_factory_function R fuel) f pre
                Bound_init (under_construction f s)) as Hst.
  by rewrite Hpre in Hst.
Qed.

Lemma requires_stack N f s path h s' :
  requires R N f s path h s' ->
  _instantiation_stack s' = _instantiation_stack s ++ path.
Proof.
  induction 1 as [fuel f s g s' Hd | fuel f s g s' path h s'' Hd _ IH].
  - by apply directly_requires_stack in Hd.
  - apply directly_requires_stack in Hd. rewrite IH, Hd.
    by rewrite <- app_assoc.
Qed.

Lemma requires_head N f s path h s' :
  requires R N f s path h s' ->
  (f ∉ BUILTINS R) /\ exists rest, path = f :: rest.
Proof. destruct 1 as [? ? ? ? ? [Hb _] | ? ? ? ? ? ? ? ? [Hb _] _]; eauto. Qed.

Lemma directly_requires_raises fuel f s g s' e name :
  directly_requires R fuel f s g s' ->
  (forall n, exists sf,
      _build_by_factory_function R fuel g n s' = (Raise e, sf)) ->
  exists sf,
    _build_by_factory_function R (S fuel) f name s = (Raise e, sf)
    /\ _instantiation_stack sf = _instantiation_stack s.
Proof.
  intros (Hb & Hs & pre & p & post & b & Hsig & Hpre & Hdem) Hg.
  destruct (Hg (Some (p_name p))) as (sf & Hsf).
  exists (set_instantiation_stack (_instantiation_stack s) sf).
  split; [| done]. simpl.
  eapply construct_raises; eauto using balanced_build_by_factory_function.
  rewrite (bind_parameter_demand _ _ _ _ _ _ Hdem).
  by apply bind_Raise.
Qed.

Lemma requires_raises N f s path h s' :
  requires R N f s path h s' ->
  h ∉ BUILTINS R -> h ∈ _instantiation_stack s' ->
  forall name, exists sf,
    _build_by_factory_function R N f name s
    = (Raise (dependency_cycle R h s'), sf)
    /\ _instantiation_stack sf = _instantiation_stack s.
Proof.
  induction 1 as [fuel f s g s' Hd | fuel f s g s' path h s'' Hd _ IH];
    intros Hb Hin name.
  - eapply directly_requires_raises; [exact Hd |].
    intros n. eexists. by apply cycle_detected.
  - eapply directly_requires_raises; [exact Hd |].
    intros n. destruct (IH Hb Hin n) as (sf & Hg & _). eauto.
Qed.
End Cycles.

(** ** What is stored in the cache *)

Section Caching.
Variable R : Runtime.

(** Lines 77-78: a factory invoked under a name stores its result under
    that name. *)
Lemma named_factory_result_is_cached fuel f name s v s' :
  _instances_by_name s < length (dicts s) ->
  _build_by_factory_function R fuel f (Some name) s = (Ok v, s') ->
  cache s' !! name = Some v.
Proof.
  intros Hvalid Hrun. destruct fuel as [| fuel]; [done |]. simpl in Hrun.
  unfold _build_by_factory_function_with in Hrun.
  unfold bind at 1, get in Hrun.
  destruct (bool_decide _); [done |].
  destruct (_Stack.contains _ _); [done |].
  unfold instantiating, bind at 1, modify, try_finally in Hrun.
  fold (under_construction f s) in Hrun.
  pose proof (framed_call_factory_function_with R _
                (framed_build_by_factory_function R fuel) f (Some name)
                (under_construction f s)) as Hfr.
  unfold bind at 1 in Hrun.
  destruct (_call_factory_function_with _ _ _ _ _) as [[w | e |] s1] eqn:Hcall;
    simpl in Hfr.
  - unfold bind, cache_store, modify, ret in Hrun. simpl in Hrun.
    unfold pop_instantiation_stack in Hrun.
    destruct (_Stack.pop _) as [[x rest] |]; [| done].
    injection Hrun as <- <-.
    unfold cache, dict_at. simpl.
    destruct Hfr as [_ Href _ _ Hlen _ _ _ _]. simpl in *.
    rewrite list_lookup_insert_eq by lia. simpl.
    by rewrite lookup_insert_eq.
  - simpl in Hrun. by destruct (pop_instantiation_stack s1) as [[] ?].
  - simpl in Hrun. by destruct (pop_instantiation_stack s1) as [[] ?].
Qed.
End Caching.

(** ** The parameter binder *)

Section Binder.
Variable R : Runtime.
Variable rec : fid -> option string -> M value.

(** Lines 116-117: a parameter whose name is cached or registered is
    resolved by name, whatever its kind and whether or not it has a
    default. *)
Lemma bind_parameter_resolvable f p b s :
  resolvable_by_name p s = true ->
  bind_parameter R rec f p b s
  = bind (_build_by_instance_name_with R rec (p_name p))
      (fun v => ret (place p v b)) s.
Proof.
  unfold resolvable_by_name, bind_parameter. intros Hr.
  unfold bind at 1, get. by rewrite Hr.
Qed.

(** Lines 119-139: the other classes, in the order of the source. *)
Lemma bind_parameter_unresolvable f p b s :
  resolvable_by_name p s = false ->
  bind_parameter R rec f p b s
  = if is_variadic p then (Ok b, s)
    else match p_default p with
         | Some _ => (Ok (finish_positional b), s)
         | None =>
             match p_annotation p with
             | Some (VCallable factory) =>
                 bind (rec factory (Some (p_name p)))
                   (fun v => ret (place p v b)) s
             | _ => (Raise (unresolved_parameter R (p_name p) f s), s)
             end
         end.
Proof.
  unfold resolvable_by_name, bind_parameter, is_variadic. intros Hr.
  unfold bind at 1, get. rewrite Hr.
  destruct (p_kind p); try done.
  all: destruct (p_default p); try done.
  all: destruct (p_annotation p) as [v |]; [by destruct v | done].
Qed.

Lemma place_finished p v b :
  positional_params_finished (place p v b) = positional_params_finished b.
Proof.
  unfold place. destruct (p_kind p); try done.
  by destruct (positional_params_finished b) eqn:Hfin.
Qed.

Lemma bind_parameter_cases f p b s b' s' :
  bind_parameter R rec f p b s = (Ok b', s') ->
  b' = b \/ b' = finish_positional b \/ exists v, b' = place p v b.
Proof.
  destruct (resolvable_by_name p s) eqn:Hr.
  - rewrite bind_parameter_resolvable by done. unfold bind.
    destruct (_build_by_instance_name_with _ _ _ _) as [[v | e |] s1];
      try done.
    intros [= <- <-]. eauto.
  - rewrite bind_parameter_unresolvable by done.
    destruct (is_variadic p); [intros [= <- <-]; eauto |].
    destruct (p_default p); [intros [= <- <-]; eauto |].
    destruct (p_annotation p) as [[] |]; try done.
    unfold bind. destruct (rec _ _ _) as [[v | e |] s1]; try done.
    intros [= <- <-]. eauto.
Qed.

(** Once set, the flag [positional_params_finished] stays set. *)
Lemma bind_parameter_finished f p b s b' s' :
  bind_parameter R rec f p b s = (Ok b', s') ->
  positional_params_finished b = true ->
  positional_params_finished b' = true.
Proof.
  intros Hrun Hfin.
  destruct (bind_parameter_cases _ _ _ _ _ _ Hrun) as [-> | [-> | [v ->]]];
    try done.
  by rewrite place_finished.
Qed.

Lemma bind_parameters_finished f ps : forall b s b' s',
  bind_parameters R rec f ps b s = (Ok b', s') ->
  positional_params_finished b = true ->
  positional_params_finished b' = true.
Proof.
  induction ps as [| p rest IH]; intros b s b' s' Hrun Hfin.
  - by injection Hrun as <- <-.
  - simpl in Hrun. unfold bind in Hrun.
    destruct (bind_parameter R rec f p b s) as [[b1 | e |] s1] eqn:Hp;
      try done.
    eapply IH; [exact Hrun |]. by eapply bind_parameter_finished.
Qed.

Lemma finish_positional_finished b :
  positional_params_finished b = true -> finish_positional b = b.
Proof. destruct b. simpl. by intros ->. Qed.

(** In keyword phase a positional-or-keyword parameter is either left
    out or set by keyword; the positional arguments are not touched. *)
Lemma keyword_phase_step f q b s b' s' :
  positional_params_finished b = true ->
  p_kind q = POSITIONAL_OR_KEYWORD ->
  bind_parameter R rec f q b s = (Ok b', s') ->
  positional_params b' = positional_params b
  /\ (b' = b \/ exists v, b' = set_keyword (p_name q) v b).
Proof.
  intros Hfin Hkind Hrun.
  destruct (bind_parameter_cases _ _ _ _ _ _ Hrun) as [-> | [-> | [v ->]]].
  - eauto.
  - rewrite finish_positional_finished by done. eauto.
  - unfold place. rewrite Hkind, Hfin. eauto.
Qed.
End Binder.

(** ** Resolution by name and factory calls *)

(** Lines 51-59: a name that is not cached is looked up in the registry. *)
Lemma uncached_name_unfold R fuel name s :
  cache s !! name = None ->
  _build_by_instance_name R fuel name s
  = match _context s !! name with
    | Some (VCallable factory) =>
        _build_by_factory_function R fuel factory (Some name) s
    | Some literal => (Ok literal, s)
    | None => (Raise (unable_to_find R name s), s)
    end.
Proof.
  intros Hc.
  unfold _build_by_instance_name, _build_by_instance_name_with.
  unfold bind at 1, get.
  apply dict_contains_false in Hc. rewrite Hc.
  destruct (_context s !! name) as [v |] eqn:Hx.
  - rewrite (dict_contains_lookup _ _ _ Hx). simpl. by destruct v.
  - apply dict_contains_false in Hx. by rewrite Hx.
Qed.


Lemma iterate_state v s : snd (iterate v s) = s.
Proof. by destruct v. Qed.

Lemma mapping_state v s : snd (mapping v s) = s.
Proof. by destruct v. Qed.

Lemma merge_keywords_state kw1 kw2 s : snd (merge_keywords kw1 kw2 s) = s.
Proof. unfold merge_keywords. by destruct (forallb _ _). Qed.

Lemma pure_run {A} (c : M A) s a :
  snd (c s) = s -> fst (c s) = Ok a -> c s = (Ok a, s).
Proof. destruct (c s) as [r s']. simpl. by intros -> ->. Qed.

Section Calls.
Variable R : Runtime.

Lemma produces_call fuel f name s instance s1 :
  produces R fuel f s instance s1 ->
  _call_factory_function R fuel f name s
  = (if has_aenter instance then enter_async_context instance
     else ret instance) s1.
Proof.
  intros (b & s0 & star & extra & keywords & Hb & Hstar & Hextra & Hkw
          & Hcall & ->).
  unfold _call_factory_function, _call_factory_function_with.
  fold (_build_parameters R fuel).
  rewrite (bind_Ok _ _ _ _ _ Hb).
  rewrite (bind_Ok _ _ _ _ _ (pure_run _ _ _ (iterate_state _ _) Hstar)).
  rewrite (bind_Ok _ _ _ _ _ (pure_run _ _ _ (mapping_state _ _) Hextra)).
  rewrite (bind_Ok _ _ _ _ _
             (pure_run _ _ _ (merge_keywords_state _ _ _) Hkw)).
  unfold bind at 1, get. unfold bind at 1, modify.
  rewrite Hcall. done.
Qed.
End Calls.

Section CallsFrame.
Variable R : Runtime.

Lemma produces_frame fuel f s instance s1 :
  produces R fuel f s instance s1 ->
  evolves s s1 /\ _instantiation_stack s1 = _instantiation_stack s.
Proof.
  intros (b & s0 & star & extra & keywords & Hb & _ & _ & _ & _ & ->).
  pose proof (framed_build_parameters_with R _
                (framed_build_by_factory_function R fuel) f s) as Hfr.
  pose proof (balanced_build_parameters_with R _
                (balanced_build_by_factory_function R fuel) f s) as Hbal.
  fold (_build_parameters R fuel) in Hfr, Hbal.
  rewrite Hb in Hfr, Hbal. simpl in *. split; [| done].
  eapply evolves_trans; [exact Hfr |]. by apply evolves_same.
Qed.
End CallsFrame.


(** ** Build scopes *)

Lemma inject_enter_seeded R fuel targets s0 top :
  _Stack.peek (_instances_by_name_stack s0) = Some top ->
  inject_enter R fuel targets s0
  = match build_targets R fuel targets (seeded top s0) with
    | (Ok v, s4) => (Ok (v, {| scope_exit_stack := length (exit_stacks s0) |}), s4)
    | (Raise e, s4) =>
        match unwind (length (exit_stacks s0)) (Some e) s4 with
        | (Ok _, s') => (Raise (RuntimeError "generator didn't yield"), s')
        | (Raise e', s') => (Raise e', s')
        | (OutOfFuel, s') => (OutOfFuel, s')
        end
    | (OutOfFuel, s4) => (OutOfFuel, s4)
    end.
Proof. intros Hpeek. unfold inject_enter. simpl. by rewrite Hpeek. Qed.

Lemma aexit_events E exc s :
  events (snd (aexit E exc s)) = events s ++ released (exit_stack_at E s).
Proof. unfold aexit. by destruct (run_callbacks _ _). Qed.

Lemma aexit_frame E exc s :
  let s' := snd (aexit E exc s) in
  _context s' = _context s /\ dicts s' = dicts s
  /\ _instances_by_name s' = _instances_by_name s
  /\ _instances_by_name_stack s' = _instances_by_name_stack s
  /\ _instantiation_stack s' = _instantiation_stack s.
Proof. unfold aexit. by destruct (run_callbacks _ _). Qed.

Lemma unwind_events E exc s :
  events (snd (unwind E exc s)) = events s ++ released (exit_stack_at E s).
Proof.
  unfold unwind, pop_instances_by_name_stack.
  destruct (_Stack.pop _) as [[x rest] |]; by rewrite aexit_events.
Qed.

Lemma unwind_frame E exc s x rest :
  _Stack.pop (_instances_by_name_stack s) = Some (x, rest) ->
  let s' := snd (unwind E exc s) in
  _context s' = _context s /\ dicts s' = dicts s
  /\ _instances_by_name s' = _instances_by_name s
  /\ _instances_by_name_stack s' = rest
  /\ _instantiation_stack s' = _instantiation_stack s.
Proof.
  intros Hpop. unfold unwind, pop_instances_by_name_stack. rewrite Hpop.
  simpl. by destruct (aexit_frame E exc (set_instances_by_name_stack rest s))
    as (? & ? & ? & ? & ?).
Qed.

Lemma acquired_identities cbs : acquired cbs = map Acquire (identities cbs).
Proof. unfold acquired, identities. by rewrite map_map. Qed.

Lemma released_identities cbs :
  released cbs = map Release (rev (identities cbs)).
Proof. unfold released, identities. by rewrite <- map_rev, map_map. Qed.

Lemma seeded_exit_stack top s0 :
  _exit_stack (seeded top s0) = length (exit_stacks s0)
  /\ _exit_stack (seeded top s0) < length (exit_stacks (seeded top s0))
  /\ exit_stack_at (length (exit_stacks s0)) (seeded top s0) = []
  /\ events (seeded top s0) = events s0.
Proof.
  unfold seeded, exit_stack_at. simpl. rewrite length_app. simpl.
  repeat split; [lia |].
  rewrite lookup_app_r by lia. by rewrite Nat.sub_diag.
Qed.

(** What a build has acquired when its resolution ends is what its exit
    stack holds. *)
Lemma build_targets_acquires R fuel targets top s0 :
  let run := build_targets R fuel targets (seeded top s0) in
  exists cbs,
    events (snd run) = events s0 ++ acquired cbs
    /\ exit_stack_at (length (exit_stacks s0)) (snd run) = cbs.
Proof.
  simpl.
  destruct (framed_build_targets R fuel targets (seeded top s0))
    as [_ _ _ _ _ _ _ _ (cbs & Hev & Hst)].
  destruct (seeded_exit_stack top s0) as (HE & Hlt & Hnil & Hev0).
  exists cbs. rewrite Hev, Hev0. split; [done |].
  specialize (Hst Hlt). rewrite HE in Hst. by rewrite Hst, Hnil.
Qed.

Lemma peek_push {A} (x : A) (st : list A) :
  _Stack.peek (_Stack.push x st) = Some x.
Proof. apply last_snoc. Qed.

Lemma seeded_cache top s0 :
  cache (seeded top s0) = dict_at top s0
  /\ _instances_by_name (seeded top s0) = length (dicts s0)
  /\ length (dicts (seeded top s0)) = S (length (dicts s0))
  /\ _instances_by_name_stack (seeded top s0)
     = _Stack.push (length (dicts s0)) (_instances_by_name_stack s0)
  /\ _context (seeded top s0) = _context s0
  /\ forall l, l < length (dicts s0) ->
       dicts (seeded top s0) !! l = dicts s0 !! l.
Proof.
  unfold seeded, cache, dict_at. simpl. rewrite length_app. simpl.
  repeat split; try lia.
  - rewrite lookup_app_r by lia. by rewrite Nat.sub_diag.
  - intros l Hl. by rewrite lookup_app_l.
Qed.

(** While a build resolves, the dictionaries that existed before it, the
    cache stack below its own frame and the registry stay as they were. *)
Lemma build_targets_overlay R fuel targets top s0 :
  let s4 := snd (build_targets R fuel targets (seeded top s0)) in
  _instances_by_name s4 = length (dicts s0)
  /\ length (dicts s4) = S (length (dicts s0))
  /\ _instances_by_name_stack s4
     = _Stack.push (length (dicts s0)) (_instances_by_name_stack s0)
  /\ _context s4 = _context s0
  /\ forall l, l < length (dicts s0) -> dicts s4 !! l = dicts s0 !! l.
Proof.
  simpl.
  destruct (framed_build_targets R fuel targets (seeded top s0))
    as [Hc Href Hst _ Hdl Hdo _ _ _].
  destruct (seeded_cache top s0) as (_ & HD & Hlen & Hstack & Hctx & Hold).
  rewrite Href, Hst, Hc, Hdl. repeat split; try done.
  intros l Hl. rewrite Hdo by lia. by apply Hold.
Qed.

(** After a build has yielded, its cache is the top frame of the cache
    stack. *)
Lemma inject_enter_yielded R fuel targets s0 v sc s :
  inject_enter R fuel targets s0 = (Ok (v, sc), s) ->
  _Stack.peek (_instances_by_name_stack s) = Some (_instances_by_name s)
  /\ _instances_by_name s < length (dicts s).
Proof.
  intros Hrun.
  destruct (_Stack.peek (_instances_by_name_stack s0)) as [top |] eqn:Hpeek.
  - rewrite (inject_enter_seeded R fuel targets s0 top Hpeek) in Hrun.
    destruct (build_targets_overlay R fuel targets top s0)
      as (HD & Hlen & Hstack & _).
    destruct (build_targets R fuel targets (seeded top s0))
      as [[w | e |] s4]; simpl in *.
    + injection Hrun as <- <- <-. rewrite Hstack, HD, Hlen.
      split; [apply peek_push | lia].
    + by destruct (unwind _ _ s4) as [[[] | e' |] s'].
    + done.
  - unfold inject_enter in Hrun. simpl in Hrun. rewrite Hpeek in Hrun.
    by destruct (aexit _ _ _) as [[[] | e' |] s'].
Qed.

(** When the scope of a build started from [s0] is left, from the state
    [s4] its resolution ended in, the cache stack and the dictionaries of
    [s0] are as they were. *)
Lemma unwind_overlay R fuel targets top s0 E exc :
  let s4 := snd (build_targets R fuel targets (seeded top s0)) in
  let s' := snd (unwind E exc s4) in
  _instances_by_name_stack s' = _instances_by_name_stack s0
  /\ _context s' = _context s0
  /\ forall l, l < length (dicts s0) -> dict_at l s' = dict_at l s0.
Proof.
  simpl.
  destruct (build_targets_overlay R fuel targets top s0)
    as (HD & Hlen & Hstack & Hctx & Hold).
  destruct (unwind_frame E exc _ _ _
              (eq_trans (f_equal _Stack.pop Hstack) (pop_push _ _)))
    as (Hc' & Hd' & _ & Hs' & _).
  rewrite Hs', Hc'. repeat split; try done.
  intros l Hl. unfold dict_at. rewrite Hd'. by rewrite Hold.
Qed.

(** ** Termination *)

Lemma runs_bind {A B} (c : M A) (k : A -> M B) s :
  runs c s ->
  (forall a s', c s = (Ok a, s') -> runs (k a) s') ->
  runs (bind c k) s.
Proof.
  unfold runs, bind. intros Hc Hk.
  destruct (c s) as [[a | e |] s']; simpl in *; try done. by apply Hk.
Qed.

Lemma runs_await v s : runs (await v) s.
Proof.
  unfold runs. destruct v; try done. simpl. unfold bind, get.
  destruct (bool_decide _); [done |]. simpl. by destruct result.
Qed.

Lemma runs_iterate v s : runs (iterate v) s.
Proof. unfold runs. by destruct v. Qed.

Lemma runs_mapping v s : runs (mapping v) s.
Proof. unfold runs. by destruct v. Qed.

Lemma runs_merge_keywords kw1 kw2 s : runs (merge_keywords kw1 kw2) s.
Proof. unfold runs, merge_keywords. by destruct (forallb _ _). Qed.

Lemma runs_of_completion c s : runs (of_completion c) s.
Proof. unfold runs. by destruct c. Qed.

Lemma runs_enter_async_context cm s : runs (enter_async_context cm) s.
Proof. unfold runs. by destruct cm as [| | | | | | | | |id [r | e] x]. Qed.

Lemma callable_in_dom dom g : callable_in dom (VCallable g) = true -> g ∈ dom.
Proof. simpl. apply bool_decide_eq_true_1. Qed.

Lemma registry_closed_lookup dom (ctx : gmap string value) name g :
  registry_closed dom ctx = true ->
  ctx !! name = Some (VCallable g) -> g ∈ dom.
Proof.
  unfold registry_closed. rewrite forallb_forall. intros Hall Hlook.
  apply callable_in_dom.
  apply (Hall (name, VCallable g)).
  apply list_elem_of_In. by apply elem_of_map_to_list.
Qed.

Lemma annotations_closed_lookup R dom f parameters p g :
  annotations_closed R dom = true ->
  f ∈ dom -> signature (factories R f) = Some parameters ->
  p ∈ parameters -> p_annotation p = Some (VCallable g) -> g ∈ dom.
Proof.
  unfold annotations_closed. rewrite forallb_forall.
  intros Hall Hf Hsig Hp Hann.
  specialize (Hall f (proj1 (list_elem_of_In _ _) Hf)).
  rewrite Hsig, forallb_forall in Hall.
  specialize (Hall p (proj1 (list_elem_of_In _ _) Hp)).
  rewrite Hann in Hall. by apply callable_in_dom.
Qed.

Section RunsOfResolver.
Variable R : Runtime.
Variable dom : list fid.
Variable ctx : gmap string value.
Variable st : list fid.
Variable rec : fid -> option string -> M value.
Hypothesis registry_ok : registry_closed dom ctx = true.
Hypothesis framed_rec : forall f n, framed (rec f n).
Hypothesis balanced_rec : forall f n, balanced (rec f n).
Hypothesis runs_rec :
  forall g n s, g ∈ dom -> _instantiation_stack s = st -> _context s = ctx ->
    runs (rec g n) s.

Lemma runs_build_by_instance_name_with name s :
  _instantiation_stack s = st -> _context s = ctx ->
  runs (_build_by_instance_name_with R rec name) s.
Proof.
  intros Hst Hctx. unfold _build_by_instance_name_with.
  apply runs_bind; [done |]. intros s0 s' [= <- <-].
  destruct (dict_contains (cache s) name); [apply runs_await |].
  destruct (dict_contains (_context s) name); [| done].
  destruct (_context s !! name) as [v |] eqn:Hx; [| done]. simpl.
  destruct v; try done.
  apply runs_rec; try done.
  eapply registry_closed_lookup; [exact registry_ok |]. by rewrite <- Hctx.
Qed.

Lemma runs_bind_parameter f p b s :
  (forall g, p_annotation p = Some (VCallable g) -> g ∈ dom) ->
  _instantiation_stack s = st -> _context s = ctx ->
  runs (bind_parameter R rec f p b) s.
Proof.
  intros Hann Hst Hctx.
  destruct (resolvable_by_name p s) eqn:Hr; unfold runs.
  - rewrite bind_parameter_resolvable by done.
    apply runs_bind; [by apply runs_build_by_instance_name_with | done].
  - rewrite bind_parameter_unresolvable by done.
    destruct (is_variadic p); [done |].
    destruct (p_default p); [done |].
    destruct (p_annotation p) as [[] |]; try done.
    apply runs_bind; [| done]. apply runs_rec; auto.
Qed.

Lemma runs_bind_parameters f ps : forall b s,
  (forall p g, p ∈ ps -> p_annotation p = Some (VCallable g) -> g ∈ dom) ->
  _instantiation_stack s = st -> _context s = ctx ->
  runs (bind_parameters R rec f ps b) s.
Proof.
  induction ps as [| p rest IH]; intros b s Hann Hst Hctx; [done |].
  simpl. apply runs_bind.
  - apply runs_bind_parameter; try done.
    intros g. apply Hann. by left.
  - intros b' s' Hrun.
    pose proof (framed_bind_parameter R rec framed_rec f p b s) as Hfr.
    pose proof (balanced_bind_parameter R rec balanced_rec f p b s) as Hbal.
    rewrite Hrun in Hfr, Hbal. simpl in *.
    apply IH.
    + intros q g Hq. apply Hann. by right.
    + congruence.
    + destruct Hfr as [Hc _ _ _ _ _ _ _ _]. congruence.
Qed.

Lemma runs_call_factory_function_with f n s :
  annotations_closed R dom = true -> f ∈ dom ->
  _instantiation_stack s = st -> _context s = ctx ->
  runs (_call_factory_function_with R rec f n) s.
Proof.
  intros Hann Hf Hst Hctx. unfold _call_factory_function_with.
  apply runs_bind.
  { unfold _build_parameters_with.
    destruct (signature (factories R f)) as [parameters |] eqn:Hsig; [| done].
    apply runs_bind_parameters; try done.
    intros p g. by apply (annotations_closed_lookup R dom f parameters). }
  intros b s1 _. apply runs_bind; [apply runs_iterate |].
  intros star s2 _. apply runs_bind; [apply runs_mapping |].
  intros extra s3 _. apply runs_bind; [apply runs_merge_keywords |].
  intros keywords s4 _. apply runs_bind; [done |].
  intros s5 s6 _. apply runs_bind; [done |].
  intros _ s7 _. apply runs_bind; [apply runs_of_completion |].
  intros instance s8 _.
  destruct (has_aenter instance); [apply runs_enter_async_context | done].
Qed.
End RunsOfResolver.

Lemma runs_build_by_factory_function_with R dom rec f n s :
  registry_closed dom (_context s) = true ->
  annotations_closed R dom = true ->
  f ∈ dom ->
  (forall g m, framed (rec g m)) ->
  (forall g m, balanced (rec g m)) ->
  (f ∉ _instantiation_stack s ->
   forall g m s', g ∈ dom ->
     _instantiation_stack s' = _Stack.push f (_instantiation_stack s) ->
     _context s' = _context s -> runs (rec g m) s') ->
  runs (_build_by_factory_function_with R rec f n) s.
Proof.
  intros Hreg Hann Hf Hfr Hbal Hrec.
  unfold _build_by_factory_function_with, _Stack.contains.
  apply runs_bind; [done |]. intros s0 s' [= <- <-].
  destruct (bool_decide (f ∈ BUILTINS R)); [done |].
  destruct (bool_decide (f ∈ _instantiation_stack s)) eqn:Hin; [done |].
  apply bool_decide_eq_false_1 in Hin.
  unfold instantiating. apply runs_bind; [done |].
  intros [] s1 [= <-]. unfold runs, try_finally.
  assert (runs (instance <- _call_factory_function_with R rec f n;;
                match n with
                | Some name => cache_store name instance
                | None => ret tt
                end;; ret instance)
            (under_construction f s)) as Hbody.
  { apply runs_bind.
    - apply runs_call_factory_function_with
        with (dom := dom) (ctx := _context s)
             (st := _Stack.push f (_instantiation_stack s)); auto.
    - intros instance s2 _. apply runs_bind; [by destruct n | done]. }
  unfold runs, under_construction in Hbody.
  destruct (bind _ _ _) as [r s2]. simpl in Hbody.
  unfold pop_instantiation_stack.
  by destruct (_Stack.pop _) as [[? ?] |].
Qed.

(** With a closed finite universe of callables, a budget larger than the
    number of callables not yet under construction is never exhausted: the
    resolver returns or raises. *)
Theorem resolution_terminates R dom fuel : forall f n s,
  registry_closed dom (_context s) = true ->
  annotations_closed R dom = true ->
  f ∈ dom ->
  NoDup (_instantiation_stack s) ->
  (forall g, g ∈ _instantiation_stack s -> g ∈ dom) ->
  length dom < fuel + length (_instantiation_stack s) ->
  runs (_build_by_factory_function R fuel f n) s.
Proof.
  induction fuel as [| fuel IH]; intros f n s Hreg Hann Hf Hnd Hsub Hlen.
  - exfalso. simpl in Hlen.
    assert (_instantiation_stack s ⊆+ dom) as Hsm by by apply NoDup_submseteq.
    apply submseteq_length in Hsm. lia.
  - simpl. apply runs_build_by_factory_function_with with (dom := dom);
      auto using framed_build_by_factory_function,
                 balanced_build_by_factory_function.
    intros Hnot g m s' Hg Hst Hctx. apply IH; try done.
    + by rewrite Hctx.
    + rewrite Hst. unfold _Stack.push. apply NoDup_app. repeat split; try done.
      * intros x Hx Hx'. apply list_elem_of_singleton in Hx'. by subst.
      * apply NoDup_singleton.
    + intros x. rewrite Hst. unfold _Stack.push. rewrite elem_of_app.
      intros [Hx | Hx]; [by apply Hsub |].
      apply list_elem_of_singleton in Hx. by subst.
    + rewrite Hst. unfold _Stack.push. rewrite length_app. simpl. lia.
Qed.

Example mutual_cycle_terminates :
  runs (_build_by_factory_function Mutual.runtime 3 Mutual.f None)
    Mutual.junkie.
Proof.
  apply (resolution_terminates Mutual.runtime [Mutual.f; Mutual.g]).
  - vm_compute; reflexivity.
  - vm_compute; reflexivity.
  - apply elem_of_cons. by left.
  - apply NoDup_nil_2.
  - intros g Hg. by apply elem_of_nil in Hg.
  - simpl. lia.
Qed.

Section RunsOfBuild.
Variable R : Runtime.
Variable dom : list fid.
Variable fuel : nat.
Hypothesis annotations_ok : annotations_closed R dom = true.

Lemma budgeted_evolves s s' :
  budgeted dom fuel s -> _context s' = _context s ->
  _instantiation_stack s' = _instantiation_stack s -> budgeted dom fuel s'.
Proof. unfold budgeted. by intros ? -> ->. Qed.

Lemma runs_build_instance v s :
  budgeted dom fuel s -> callable_in dom v = true -> runs (_build_instance R fuel v) s.
Proof.
  intros (Hreg & Hnd & Hsub & Hlen) Hv. destruct v; try done; simpl.
  - apply runs_build_by_instance_name_with
      with (dom := dom) (ctx := _context s) (st := _instantiation_stack s);
      try done.
    intros g n s' Hg Hst Hctx.
    apply resolution_terminates with (dom := dom); try done;
      by rewrite ?Hst, ?Hctx.
  - apply resolution_terminates with (dom := dom); try done.
    by apply callable_in_dom.
Qed.

Lemma runs_build_each vs : forall s,
  budgeted dom fuel s -> forallb (callable_in dom) vs = true ->
  runs (build_each R fuel vs) s.
Proof.
  induction vs as [| v rest IH]; intros s Hs Hvs; [done |].
  simpl in Hvs. apply andb_true_iff in Hvs as [Hv Hrest]. simpl.
  apply runs_bind; [by apply runs_build_instance |].
  intros instance s' Hrun. apply runs_bind; [| done].
  apply IH; [| done].
  pose proof (framed_build_instance R fuel v s) as Hfr.
  pose proof (balanced_build_instance R fuel v s) as Hbal.
  rewrite Hrun in Hfr, Hbal. simpl in *.
  destruct Hfr as [Hc _ _ _ _ _ _ _ _]. by eapply budgeted_evolves.
Qed.

Lemma runs_build_targets vs s :
  budgeted dom fuel s -> forallb (callable_in dom) vs = true ->
  runs (build_targets R fuel vs) s.
Proof.
  intros Hs Hvs.
  assert (runs (_build_tuple R fuel vs) s) as Ht.
  { apply runs_bind; [by apply runs_build_each | done]. }
  destruct vs as [| v [| w rest]]; try exact Ht.
  simpl in Hvs. apply andb_true_iff in Hvs as [Hv _].
  by apply runs_build_instance.
Qed.

(** X10. A build with a budget larger than the number of callables
    returns or raises: the resolution of its targets does not recurse
    without end. *)
Theorem inject_enter_terminates targets s0 :
  budgeted dom fuel s0 -> forallb (callable_in dom) targets = true ->
  runs (inject_enter R fuel targets) s0.
Proof.
  intros Hs Hvs. unfold runs.
  destruct (_Stack.peek (_instances_by_name_stack s0)) as [top |] eqn:Hpeek.
  - rewrite (inject_enter_seeded R fuel targets s0 top Hpeek).
    assert (budgeted dom fuel (seeded top s0)) as Hseed by by eapply budgeted_evolves.
    pose proof (runs_build_targets targets _ Hseed Hvs) as Hrun.
    unfold runs in Hrun.
    destruct (build_targets R fuel targets (seeded top s0))
      as [[v | e |] s4]; try done.
    unfold unwind, pop_instances_by_name_stack, aexit.
    destruct (_Stack.pop _) as [[? ?] |]; simpl;
      by destruct (run_callbacks _ _).
  - unfold inject_enter. simpl. rewrite Hpeek. unfold aexit.
    by destruct (run_callbacks _ _).
Qed.
End RunsOfBuild.

(** ** Scoped resources *)

(** Lines 89-98 and 77-80: when the factory registered under an uncached
    name produces an object with [__aenter__], resolving the name returns
    what [__aenter__] returned; the exit is registered and the entered value
    is cached. *)
Lemma scoped_resource_by_name
    R fuel name factory s id v x s1 :
  cache s !! name = None ->
  _context s !! name = Some (VCallable factory) ->
  factory ∉ BUILTINS R ->
  factory ∉ _instantiation_stack s ->
  produces R fuel factory (under_construction factory s)
    (VScoped id (Returns v) x) s1 ->
  exists s',
    _build_by_instance_name R (S fuel) name s = (Ok v, s')
    /\ events s' = events s1 ++ [Acquire id]
    /\ (_exit_stack s < length (exit_stacks s) ->
        exit_stack_at (_exit_stack s) s'
        = exit_stack_at (_exit_stack s) s1 ++ [{| cb_id := id; cb_exit := x |}])
    /\ (_instances_by_name s < length (dicts s) -> cache s' !! name = Some v).
Proof.
  intros Hc Hx Hb Hs Hprod.
  destruct (produces_frame R _ _ _ _ _ Hprod) as [Hfr Hst].
  rewrite uncached_name_unfold by done. rewrite Hx. simpl.
  rewrite build_by_factory_unfold by done. unfold try_finally.
  fold (_call_factory_function R fuel).
  unfold bind at 1. rewrite (produces_call R _ _ _ _ _ _ Hprod). simpl.
  unfold bind, modify, ret, cache_store, pop_instantiation_stack. simpl.
  rewrite Hst. unfold under_construction at 1. simpl. rewrite pop_push.
  eexists. split; [reflexivity |]. simpl.
  destruct Hfr as [_ Href _ Hexit Hdl _ Hel _ _]. simpl in *.
  repeat split.
  - intros Hlt. unfold exit_stack_at at 1. simpl.
    rewrite Hexit. rewrite list_lookup_insert_eq by lia. done.
  - intros Hlt. unfold cache, dict_at. simpl.
    rewrite list_lookup_insert_eq by lia. simpl. by rewrite lookup_insert_eq.
Qed.

(** ** Repeated resolution of a name *)

(** Lines 48-49: a name found in the cache is answered by awaiting the
    cached object. *)
Lemma cached_name_is_awaited R fuel name v s :
  cache s !! name = Some v ->
  _build_by_instance_name R fuel name s = await v s.
Proof.
  intros Hc. unfold _build_by_instance_name, _build_by_instance_name_with.
  unfold bind at 1, get.
  by rewrite (dict_contains_lookup _ _ _ Hc), Hc.
Qed.

(** C1. Resolving a name twice in one build does not give the same
    instance twice in the suspending resolver: with the registry binding
    [a] to a class, the first resolution stores the new object and the
    second, which awaits the stored object, raises [TypeError]; with [w]
    bound to a coroutine function, the first resolution yields the
    coroutine object and the second yields what the coroutine returns. *)
Theorem second_resolution_awaits_cached_instance :
  fst (inject_enter Single.runtime 1 [VStr "a"] Single.junkie)
  = Ok (VObj 0, {| scope_exit_stack := 1 |})
  /\ fst (inject_enter Single.runtime 1 [VStr "a"; VStr "a"] Single.junkie)
     = Raise (TypeError "object can't be used in 'await' expression")
  /\ fst (inject_enter Single.runtime 1 [VStr "w"; VStr "w"] Single.junkie)
     = Ok (VTuple [VCoroutine 0 (Returns (VStr "done")); VStr "done"],
           {| scope_exit_stack := 1 |}).
Proof. repeat split; vm_compute; reflexivity. Qed.

(** ** Building a factory that requires itself *)



Example mutual_cycle_message :
  fst (inject_enter Mutual.runtime 3 [VStr "a"] Mutual.junkie)
  = Raise (JunkieError
      (newline +:+ "-> f() at " +:+ dquote +:+ "app.py:3" +:+ dquote
       +:+ newline +:+ " -> g() at " +:+ dquote +:+ "app.py:7" +:+ dquote
       +:+ newline +:+ "Dependency cycle detected with " +:+ dquote
       +:+ "f()" +:+ dquote)).
Proof. vm_compute. reflexivity. Qed.

(** ** Resolution of a single name *)

(** The registry binds [prefix] to a literal: resolving it returns the
    literal and stores nothing, so the claim that the literal is cached
    fails. *)
Lemma literal_is_not_cached :
  let run := inject_enter Text.runtime 1 [VStr "prefix"] Text.junkie in
  fst run = Ok (VStr "abc", {| scope_exit_stack := 1 |})
  /\ ~ (cache (snd run) !! "prefix" = Some (VStr "abc")).
Proof. split; [vm_compute; reflexivity |]. vm_compute. discriminate. Qed.

(** C3 (amended). For a name that is not in the per-build cache: a
    registry literal is returned as it is and the state, the cache
    included, is unchanged; a registry factory is invoked under the name
    and whatever it produces is then stored in the cache under the name;
    a name the registry does not bind raises the [Unable to find]
    [JunkieError]. *)
Theorem uncached_name_resolution R fuel name s :
  cache s !! name = None ->
  _instances_by_name s < length (dicts s) ->
  match _context s !! name with
  | Some (VCallable factory) =>
      _build_by_instance_name R fuel name s
      = _build_by_factory_function R fuel factory (Some name) s
      /\ forall instance s',
           _build_by_factory_function R fuel factory (Some name) s
           = (Ok instance, s') ->
           cache s' !! name = Some instance
  | Some literal => _build_by_instance_name R fuel name s = (Ok literal, s)
  | None =>
      _build_by_instance_name R fuel name s
      = (Raise (unable_to_find R name s), s)
  end.
Proof.
  intros Hc Hvalid. rewrite (uncached_name_unfold R fuel name s Hc).
  destruct (_context s !! name) as [[] |]; try done.
  split; [done |]. intros instance s'.
  by apply named_factory_result_is_cached.
Qed.

Lemma uncached_name_resolution_witness :
  let s := Text.junkie in
  cache s !! "text" = None
  /\ _instances_by_name s < length (dicts s)
  /\ _build_by_instance_name Text.runtime 1 "text" s
     = _build_by_factory_function Text.runtime 1 Text.text (Some "text") s
  /\ forall instance s',
       _build_by_factory_function Text.runtime 1 Text.text (Some "text") s
       = (Ok instance, s') ->
       cache s' !! "text" = Some instance.
Proof.
  intros s.
  assert (cache s !! "text" = None) as Hc by reflexivity.
  assert (_instances_by_name s < length (dicts s)) as Hv by (simpl; lia).
  split; [exact Hc |]. split; [exact Hv |].
  exact (uncached_name_resolution Text.runtime 1 "text" s Hc Hv).
Defined.

Example unknown_name_raises :
  fst (inject_enter Text.runtime 1 [VStr "missing"] Text.junkie)
  = Raise (JunkieError ("Unable to find " +:+ dquote +:+ "missing" +:+ dquote)).
Proof. vm_compute. reflexivity. Qed.

(** ** Release of resources *)


Example release_after_failed_acquisition :
  let run := inject_enter (Resources.runtime (Throws (UserException "boom")))
               1 Resources.targets Resources.junkie in
  fst run = Raise (UserException "boom")
  /\ events (snd run) = [Acquire 0; Acquire 1; Release 1; Release 0].
Proof. split; vm_compute; reflexivity. Qed.

Example release_after_block :
  let run := inject_enter (Resources.runtime (Returns VNone)) 1
               Resources.targets Resources.junkie in
  forall exc,
    events (snd (inject_exit {| scope_exit_stack := 1 |} exc (snd run)))
    = [Acquire 0; Acquire 1; Acquire 2; Release 2; Release 1; Release 0].
Proof. intros run exc. unfold inject_exit. rewrite unwind_events. reflexivity. Qed.

(** ** The shape of what a build yields *)

Lemma resolves_build_each R fuel names s instances s' :
  resolves R fuel names s instances s' ->
  build_each R fuel (map VStr names) s = (Ok instances, s').
Proof.
  induction 1 as [| name names s instance s1 instances s2 Hn _ IH]; [done |].
  simpl. rewrite (bind_Ok _ _ _ _ _ Hn). by rewrite (bind_Ok _ _ _ _ _ IH).
Qed.

Lemma resolves_length R fuel names s instances s' :
  resolves R fuel names s instances s' -> length instances = length names.
Proof. induction 1; simpl; congruence. Qed.

(** A set of names given as the target of [inject] is not built into a
    mapping: the resolver rejects it. *)
Lemma set_target_is_rejected :
  fst (inject_enter Text.runtime 1 [VSet ["text"; "prefix"]] Text.junkie)
  = Raise (JunkieError ("Unknown type " +:+ dquote +:+ "<object>" +:+ dquote
                          +:+ " (str, type or Callable expected)")).
Proof. vm_compute. reflexivity. Qed.

(** C5 (amended). For names that each resolve: one name alone yields its
    instance itself; no name or several names, given as separate
    arguments, yield the tuple of their instances in the order given; and a
    collection object (a set, list, tuple or dictionary of names) passed as
    a target is rejected with the [Unknown type] [JunkieError]. *)
Theorem build_targets_shape R fuel names s instances s' collection :
  resolves R fuel names s instances s' ->
  is_collection collection = true ->
  (forall name, names = [name] ->
     exists instance,
       instances = [instance]
       /\ build_targets R fuel [VStr name] s = (Ok instance, s'))
  /\ (length names <> 1 ->
      build_targets R fuel (map VStr names) s = (Ok (VTuple instances), s')
      /\ length instances = length names)
  /\ build_targets R fuel [collection] s
     = (Raise (unknown_type R collection s), s).
Proof.
  intros Hres Hcoll. repeat split.
  - intros name ->. inversion Hres as [| ? ? ? instance s1 ? ? Hn Hrest]; subst.
    inversion Hrest; subst. by exists instance.
  - assert (build_targets R fuel (map VStr names) s
            = _build_tuple R fuel (map VStr names) s) as ->.
    { by destruct names as [| a [| b rest]]. }
    unfold _build_tuple.
    by rewrite (bind_Ok _ _ _ _ _ (resolves_build_each _ _ _ _ _ _ Hres)).
  - by eapply resolves_length.
  - by destruct collection.
Qed.

Lemma build_targets_shape_witness :
  let s1 := snd (_build_by_instance_name Text.runtime 1 "text" Text.junkie) in
  let instances := [VStr "abcxyz"; VStr "abc"] in
  let collection := VSet ["text"; "prefix"] in
  resolves Text.runtime 1 ["text"; "prefix"] Text.junkie instances s1
  /\ is_collection collection = true
  /\ (length ["text"; "prefix"] <> 1 ->
      build_targets Text.runtime 1 (map VStr ["text"; "prefix"]) Text.junkie
      = (Ok (VTuple instances), s1)
      /\ length instances = length ["text"; "prefix"])
  /\ build_targets Text.runtime 1 [collection] Text.junkie
     = (Raise (unknown_type Text.runtime collection Text.junkie), Text.junkie).
Proof.
  intros s1 instances collection.
  assert (resolves Text.runtime 1 ["text"; "prefix"] Text.junkie instances s1)
    as Hres.
  { apply resolves_cons with (s1 := s1); [vm_compute; reflexivity |].
    apply resolves_cons with (s1 := s1); [vm_compute; reflexivity |].
    apply resolves_nil. }
  assert (is_collection collection = true) as Hcoll by reflexivity.
  split; [exact Hres |]. split; [exact Hcoll |].
  exact (proj2 (build_targets_shape Text.runtime 1 ["text"; "prefix"]
                  Text.junkie instances s1 collection Hres Hcoll)).
Defined.

(** ** Parameters with a default *)




Example keyword_phase_call :
  fst (inject_enter Defaults.runtime 1 [VCallable Defaults.f] Defaults.second)
  = Ok (arguments [] [("b", VStr "B")], {| scope_exit_stack := 1 |}).
Proof. vm_compute. reflexivity. Qed.

(** ** Variadic parameters *)

(** The registry binds the name [args]: the star parameter [args] of [f]
    is not skipped, the registered tuple is spread into the call. *)
Lemma registered_variadic_is_spread :
  fst (inject_enter Variadic.runtime 1 [VCallable Variadic.f] Variadic.bound)
  = Ok (arguments [VStr "x"; VStr "y"] [], {| scope_exit_stack := 1 |})
  /\ (exists b s,
        _build_parameters Variadic.runtime 0 Variadic.f Variadic.bound
        = (Ok b, s)
        /\ args b = VTuple [VStr "x"; VStr "y"]).
Proof.
  split; [vm_compute; reflexivity |].
  eexists _, _. split; [vm_compute; reflexivity | reflexivity].
Qed.

(** C7 (amended). A variadic parameter whose name is in neither the cache
    nor the registry is skipped: the arguments collected so far and the
    state are unchanged, so nothing is synthesized for it. When its name is
    in the cache or the registry, the value resolved under that name
    becomes the star (or double-star) argument of the call. *)
Theorem variadic_skipped_unless_named R rec f p b s :
  is_variadic p = true ->
  (resolvable_by_name p s = false ->
   bind_parameter R rec f p b s = (Ok b, s))
  /\ (resolvable_by_name p s = true ->
      bind_parameter R rec f p b s
      = bind (_build_by_instance_name_with R rec (p_name p))
          (fun v => ret (match p_kind p with
                         | VAR_POSITIONAL => set_args v b
                         | _ => set_kwargs v b
                         end)) s).
Proof.
  intros Hvar. split; intros Hres.
  - rewrite bind_parameter_unresolvable by done. by rewrite Hvar.
  - rewrite bind_parameter_resolvable by done.
    unfold place, is_variadic in *. by destruct (p_kind p).
Qed.

Lemma variadic_skipped_unless_named_witness :
  let rec := _build_by_factory_function Variadic.runtime 0 in
  let p := Variadic.star "args" VAR_POSITIONAL in
  is_variadic p = true
  /\ (resolvable_by_name p Variadic.unbound = false ->
      bind_parameter Variadic.runtime rec Variadic.f p Bound_init
        Variadic.unbound
      = (Ok Bound_init, Variadic.unbound)).
Proof.
  intros rec p.
  assert (is_variadic p = true) as Hvar by reflexivity.
  split; [exact Hvar |].
  exact (proj1 (variadic_skipped_unless_named Variadic.runtime rec
                  Variadic.f p Bound_init Variadic.unbound Hvar)).
Defined.

(** ** Parameters built from their annotation *)

(** [f(x: A)] with nothing registered: the object built from the
    annotation [A] is stored in the cache under the parameter name [x]. *)
Lemma annotation_build_is_cached :
  let run := inject_enter Annotated.runtime 2 [VCallable Annotated.f]
               Annotated.junkie in
  fst run = Ok (arguments [VObj 0] [], {| scope_exit_stack := 1 |})
  /\ cache (snd run) !! "x" = Some (VObj 0).
Proof. split; vm_compute; reflexivity. Qed.

(** C8 (amended). For a parameter whose name is in neither the cache nor
    the registry, that is not variadic, has no default and is annotated
    with a callable, the binder invokes the annotation as a nested factory
    under the parameter's name, and what the factory produces is stored in
    the per-build cache under that name. *)
Theorem annotation_is_built_under_parameter_name R fuel f p g b s :
  resolvable_by_name p s = false ->
  is_variadic p = false ->
  p_default p = None ->
  p_annotation p = Some (VCallable g) ->
  _instances_by_name s < length (dicts s) ->
  bind_parameter R (_build_by_factory_function R fuel) f p b s
  = bind (_build_by_factory_function R fuel g (Some (p_name p)))
      (fun v => ret (place p v b)) s
  /\ forall v s',
       _build_by_factory_function R fuel g (Some (p_name p)) s = (Ok v, s') ->
       cache s' !! p_name p = Some v.
Proof.
  intros Hres Hvar Hdef Hann Hvalid. split.
  - rewrite bind_parameter_unresolvable by done.
    by rewrite Hvar, Hdef, Hann.
  - intros v s'. by apply named_factory_result_is_cached.
Qed.

Lemma annotation_is_built_under_parameter_name_witness :
  let s := under_construction Annotated.f Annotated.junkie in
  bind_parameter Annotated.runtime
    (_build_by_factory_function Annotated.runtime 1) Annotated.f Annotated.x
    Bound_init s
  = bind (_build_by_factory_function Annotated.runtime 1 Annotated.A
            (Some (p_name Annotated.x)))
      (fun v => ret (place Annotated.x v Bound_init)) s
  /\ forall v s',
       _build_by_factory_function Annotated.runtime 1 Annotated.A
         (Some (p_name Annotated.x)) s = (Ok v, s') ->
       cache s' !! p_name Annotated.x = Some v.
Proof.
  intros s.
  apply (annotation_is_built_under_parameter_name Annotated.runtime 1
           Annotated.f Annotated.x Annotated.A Bound_init s).
  - vm_compute; reflexivity.
  - reflexivity.
  - reflexivity.
  - reflexivity.
  - simpl; lia.
Defined.

(** ** Nested builds *)



(** The nested build caches [w]; the enclosing build's cache holds [a]
    alone, during and after the nested build. *)
Example nested_instances_stay_in_nested_cache :
  let s := snd (inject_enter Single.runtime 1 [VStr "a"] Single.junkie) in
  let s1 := snd (inject_enter Single.runtime 1 [VStr "w"] s) in
  let s2 := snd (inject_exit {| scope_exit_stack := 2 |} None s1) in
  cache s1 !! "w" = Some (VCoroutine 1 (Returns (VStr "done")))
  /\ cache s1 !! "a" = Some (VObj 0)
  /\ dict_at (_instances_by_name s) s1 !! "w" = None
  /\ dict_at (_instances_by_name s) s2 !! "w" = None
  /\ dict_at (_instances_by_name s) s2 !! "a" = Some (VObj 0).
Proof. repeat split; vm_compute; reflexivity. Qed.

(** ** Building a scoped resource *)

(** C10. When the registry binds a name to a factory and the object the
    factory produces has the asynchronous enter/exit protocol, building the
    name yields exactly what the enter step returned, in place of the
    produced object; the entered value is what the build caches under the
    name, and the resource, acquired last, is the first to be released when
    the build's scope is left. *)
Theorem scoped_resource_yields_entered_value
    R fuel name factory s0 top id v x s1 :
  _Stack.peek (_instances_by_name_stack s0) = Some top ->
  dict_at top s0 !! name = None ->
  _context s0 !! name = Some (VCallable factory) ->
  factory ∉ BUILTINS R ->
  factory ∉ _instantiation_stack s0 ->
  produces R fuel factory (under_construction factory (seeded top s0))
    (VScoped id (Returns v) x) s1 ->
  exists sc s',
    inject_enter R (S fuel) [VStr name] s0 = (Ok (v, sc), s')
    /\ events s' = events s1 ++ [Acquire id]
    /\ cache s' !! name = Some v
    /\ forall exc, exists others,
         events (snd (inject_exit sc exc s'))
         = events s' ++ Release id :: others.
Proof.
  intros Hpeek Hc Hx Hb Hs Hprod.
  destruct (seeded_cache top s0) as (Hseed & HD & Hlen & _ & Hctx & _).
  destruct (seeded_exit_stack top s0) as (HE & Hlt & Hnil & _).
  assert (cache (seeded top s0) !! name = None) as Hc' by by rewrite Hseed.
  assert (_context (seeded top s0) !! name = Some (VCallable factory))
    as Hx' by by rewrite Hctx.
  destruct (scoped_resource_by_name R fuel name factory (seeded top s0)
              id v x s1 Hc' Hx' Hb Hs Hprod)
    as (s' & Hrun & Hev & Hst & Hcache).
  rewrite (inject_enter_seeded R (S fuel) [VStr name] s0 top Hpeek).
  simpl build_targets. fold (_build_by_instance_name R (S fuel) name).
  rewrite Hrun. eexists _, s'. split; [reflexivity |].
  split; [done |]. split; [apply Hcache; lia |].
  intros exc. unfold inject_exit. simpl. rewrite unwind_events.
  specialize (Hst Hlt). rewrite HE in Hst. rewrite Hst.
  unfold released. rewrite rev_app_distr. simpl. eauto.
Qed.

Lemma scoped_resource_yields_entered_value_witness :
  let s0 := AsyncTest.my_junkie in
  let s1 := set_next_id 1
              (under_construction AsyncTest.async_test (seeded 0 s0)) in
  exists sc s',
    inject_enter AsyncTest.runtime 1 [VStr "text"] s0
    = (Ok (VStr "hello from async context manager", sc), s')
    /\ events s' = events s1 ++ [Acquire 0]
    /\ cache s' !! "text" = Some (VStr "hello from async context manager")
    /\ forall exc, exists others,
         events (snd (inject_exit sc exc s'))
         = events s' ++ Release 0 :: others.
Proof.
  intros s0 s1.
  apply (scoped_resource_yields_entered_value AsyncTest.runtime 0 "text"
           AsyncTest.async_test s0 0 0
           (VStr "hello from async context manager") ExitFalse s1).
  - reflexivity.
  - reflexivity.
  - reflexivity.
  - apply not_elem_of_nil.
  - apply not_elem_of_nil.
  - exists Bound_init,
      (under_construction AsyncTest.async_test (seeded 0 s0)), [], [], [].
    repeat split; reflexivity.
Defined.

(** The test [test_async_support]: injecting [text] yields the string. *)
Example test_async_support :
  fst (inject_enter AsyncTest.runtime 1 [VStr "text"] AsyncTest.my_junkie)
  = Ok (VStr "hello from async context manager", {| scope_exit_stack := 1 |}).
Proof. vm_compute. reflexivity. Qed.

(** * Further properties of the resolver *)
Lemma constructed_under_construction f s : constructed s (under_construction f s) = s.
Proof. by destruct s. Qed.

Lemma called_call R fuel f name s c s1 :
  called R fuel f s c s1 ->
  _call_factory_function R fuel f name s
  = bind (of_completion c)
      (fun instance => if has_aenter instance
                       then enter_async_context instance
                       else ret instance) s1.
Proof.
  intros (b & s0 & star & extra & keywords & Hb & Hstar & Hextra & Hkw
          & Hcall & ->).
  unfold _call_factory_function, _call_factory_function_with.
  fold (_build_parameters R fuel).
  rewrite (bind_Ok _ _ _ _ _ Hb).
  rewrite (bind_Ok _ _ _ _ _ (pure_run _ _ _ (iterate_state _ _) Hstar)).
  rewrite (bind_Ok _ _ _ _ _ (pure_run _ _ _ (mapping_state _ _) Hextra)).
  rewrite (bind_Ok _ _ _ _ _
             (pure_run _ _ _ (merge_keywords_state _ _ _) Hkw)).
  unfold bind at 1, get. unfold bind at 1, modify.
  by rewrite Hcall.
Qed.

Lemma called_frame R fuel f s c s1 :
  called R fuel f s c s1 ->
  evolves s s1 /\ _instantiation_stack s1 = _instantiation_stack s.
Proof.
  intros (b & s0 & star & extra & keywords & Hb & _ & _ & _ & _ & ->).
  pose proof (framed_build_parameters_with R _
                (framed_build_by_factory_function R fuel) f s) as Hfr.
  pose proof (balanced_build_parameters_with R _
                (balanced_build_by_factory_function R fuel) f s) as Hbal.
  fold (_build_parameters R fuel) in Hfr, Hbal.
  rewrite Hb in Hfr, Hbal. simpl in *. split; [| done].
  eapply evolves_trans; [exact Hfr |]. by apply evolves_same.
Qed.

(** When the call of the factory, or the acquisition of what it returned,
    raises, the construction ends there. *)
Lemma construction_fails_after_call R fuel f name s c s1 e :
  f ∉ BUILTINS R -> f ∉ _instantiation_stack s ->
  called R fuel f (under_construction f s) c s1 ->
  (c = Throws e \/ exists id x, c = Returns (VScoped id (Throws e) x)) ->
  _build_by_factory_function R (S fuel) f name s
  = (Raise e, constructed s s1).
Proof.
  intros Hb Hs Hcalled Hc. simpl.
  destruct (called_frame R _ _ _ _ _ Hcalled) as [_ Hst].
  rewrite build_by_factory_unfold by done. unfold try_finally.
  fold (_call_factory_function R fuel).
  unfold bind at 1. rewrite (called_call R _ _ _ _ _ _ Hcalled).
  assert (bind (of_completion c)
            (fun instance => if has_aenter instance
                             then enter_async_context instance
                             else ret instance) s1 = (Raise e, s1)) as ->.
  { by destruct Hc as [-> | (id & x & ->)]. }
  unfold pop_instantiation_stack. rewrite Hst.
  unfold under_construction at 1. simpl. by rewrite pop_push.
Qed.

(** ** Failures while a factory is constructed *)

(** X1. A failure while binding a parameter aborts the construction of the
    factory: the parameters after it are not bound, the factory is not
    called and nothing is stored for it; the error reaches the caller as it
    was raised, and the state is the one the failing parameter left, with
    the factory popped from the instantiation stack. *)
Theorem parameter_failure_aborts_construction
    R fuel f name s pre p post b s' e s1 :
  f ∉ BUILTINS R ->
  f ∉ _instantiation_stack s ->
  signature (factories R f) = Some (pre ++ p :: post) ->
  bind_parameters R (_build_by_factory_function R fuel) f pre Bound_init
    (under_construction f s) = (Ok b, s') ->
  bind_parameter R (_build_by_factory_function R fuel) f p b s'
  = (Raise e, s1) ->
  _build_by_factory_function R (S fuel) f name s
  = (Raise e, constructed s s1).
Proof.
  intros Hb Hs Hsig Hpre Hp. simpl.
  eapply construct_raises; eauto using balanced_build_by_factory_function.
Qed.

Lemma parameter_failure_aborts_construction_witness :
  let s' := under_construction Mutual.f Mutual.junkie in
  let e := dependency_cycle Mutual.runtime Mutual.f
             (under_construction Mutual.g s') in
  _build_by_factory_function Mutual.runtime 3 Mutual.f (Some "a")
    Mutual.junkie
  = (Raise e, constructed Mutual.junkie s').
Proof.
  intros s' e.
  apply (parameter_failure_aborts_construction Mutual.runtime 2 Mutual.f
           (Some "a") Mutual.junkie [] (named "b") [] Bound_init s' e s').
  - apply not_elem_of_nil.
  - apply not_elem_of_nil.
  - reflexivity.
  - reflexivity.
  - vm_compute; reflexivity.
Defined.

(** X2. A parameter that cannot be resolved by name, has no default and is
    annotated with a builtin type is reported with the parameter's name and
    the builtin's name ([Mapping for ... of builtin type ... is missing]);
    the builtin is not called and the construction of the factory is
    aborted. *)
Theorem builtin_annotation_is_reported
    R fuel f name s pre p post b s' g :
  f ∉ BUILTINS R ->
  f ∉ _instantiation_stack s ->
  signature (factories R f) = Some (pre ++ p :: post) ->
  bind_parameters R (_build_by_factory_function R (S fuel)) f pre Bound_init
    (under_construction f s) = (Ok b, s') ->
  resolvable_by_name p s' = false ->
  is_variadic p = false ->
  p_default p = None ->
  p_annotation p = Some (VCallable g) ->
  g ∈ BUILTINS R ->
  _build_by_factory_function R (S (S fuel)) f name s
  = (Raise (missing_builtin R g (Some (p_name p)) s'), constructed s s').
Proof.
  intros Hb Hs Hsig Hpre Hres Hvar Hdef Hann Hg.
  change (_build_by_factory_function R (S (S fuel)) f name s)
    with (_build_by_factory_function_with R
            (_build_by_factory_function R (S fuel)) f name s).
  eapply construct_raises; eauto using balanced_build_by_factory_function.
  rewrite bind_parameter_unresolvable by done. rewrite Hvar, Hdef, Hann.
  apply bind_Raise. simpl.
  unfold _build_by_factory_function_with. unfold bind at 1, get.
  by rewrite (bool_decide_eq_true_2 _ Hg).
Qed.

Lemma builtin_annotation_is_reported_witness :
  let s' := under_construction Failing.needs_int Failing.junkie in
  _build_by_factory_function Failing.runtime 2 Failing.needs_int None
    Failing.junkie
  = (Raise (missing_builtin Failing.runtime Failing.int (Some "count") s'),
     constructed Failing.junkie s').
Proof.
  intros s'.
  apply (builtin_annotation_is_reported Failing.runtime 0 Failing.needs_int
           None Failing.junkie [] Failing.count [] Bound_init s' Failing.int).
  - apply (bool_decide_eq_false_1 (Failing.needs_int ∈ [Failing.int]));
      vm_compute; reflexivity.
  - apply not_elem_of_nil.
  - reflexivity.
  - reflexivity.
  - vm_compute; reflexivity.
  - reflexivity.
  - reflexivity.
  - reflexivity.
  - apply elem_of_cons. by left.
Defined.

(** X3. A parameter that cannot be resolved by name, is not variadic, has
    no default and no callable annotation makes the construction fail with
    [Unable to find ... for ...], naming the parameter and the factory; the
    factory is not called. *)
Theorem unresolvable_parameter_is_reported
    R fuel f name s pre p post b s' :
  f ∉ BUILTINS R ->
  f ∉ _instantiation_stack s ->
  signature (factories R f) = Some (pre ++ p :: post) ->
  bind_parameters R (_build_by_factory_function R fuel) f pre Bound_init
    (under_construction f s) = (Ok b, s') ->
  resolvable_by_name p s' = false ->
  is_variadic p = false ->
  p_default p = None ->
  (forall g, p_annotation p <> Some (VCallable g)) ->
  _build_by_factory_function R (S fuel) f name s
  = (Raise (unresolved_parameter R (p_name p) f s'), constructed s s').
Proof.
  intros Hb Hs Hsig Hpre Hres Hvar Hdef Hann. simpl.
  eapply construct_raises; eauto using balanced_build_by_factory_function.
  rewrite bind_parameter_unresolvable by done. rewrite Hvar, Hdef.
  destruct (p_annotation p) as [v |]; [| done].
  destruct v; try done. by destruct (Hann f0).
Qed.

Lemma unresolvable_parameter_is_reported_witness :
  let s' := under_construction Failing.needs_x Failing.junkie in
  _build_by_factory_function Failing.runtime 1 Failing.needs_x None
    Failing.junkie
  = (Raise (unresolved_parameter Failing.runtime "x" Failing.needs_x s'),
     constructed Failing.junkie s').
Proof.
  intros s'.
  apply (unresolvable_parameter_is_reported Failing.runtime 0 Failing.needs_x
           None Failing.junkie [] (named "x") [] Bound_init s').
  - apply (bool_decide_eq_false_1 (Failing.needs_x ∈ [Failing.int]));
      vm_compute; reflexivity.
  - apply not_elem_of_nil.
  - reflexivity.
  - reflexivity.
  - vm_compute; reflexivity.
  - reflexivity.
  - reflexivity.
  - intros g. discriminate.
Defined.



(** X5. When the call of a factory raises, the exception reaches the caller
    unchanged and nothing else happens: no instance is stored under the
    name, no resource is registered, and the factory is popped from the
    instantiation stack. *)
Theorem raising_factory_stores_nothing R fuel f name s e s1 :
  f ∉ BUILTINS R ->
  f ∉ _instantiation_stack s ->
  called R fuel f (under_construction f s) (Throws e) s1 ->
  _build_by_factory_function R (S fuel) f name s = (Raise e, constructed s s1).
Proof.
  intros Hb Hs Hcalled.
  eapply construction_fails_after_call; eauto.
Qed.

Lemma raising_factory_stores_nothing_witness :
  let s1 := set_next_id 1 (under_construction Failing.raising Failing.junkie) in
  _build_by_factory_function Failing.runtime 1 Failing.raising (Some "r")
    Failing.junkie
  = (Raise (UserException "boom"), constructed Failing.junkie s1).
Proof.
  intros s1.
  apply (raising_factory_stores_nothing Failing.runtime 0 Failing.raising
           (Some "r") Failing.junkie (UserException "boom") s1).
  - apply (bool_decide_eq_false_1 (Failing.raising ∈ [Failing.int]));
      vm_compute; reflexivity.
  - apply not_elem_of_nil.
  - exists Bound_init, (under_construction Failing.raising Failing.junkie),
      [], [], [].
    repeat split; reflexivity.
Defined.

(** X6. When the object a factory returned has [__aenter__] and entering it
    raises, the exception reaches the caller unchanged; the resource is not
    registered for release, no acquisition is logged and nothing is stored
    under the name. *)
Theorem failed_acquisition_registers_nothing R fuel f name s id x e s1 :
  f ∉ BUILTINS R ->
  f ∉ _instantiation_stack s ->
  called R fuel f (under_construction f s)
    (Returns (VScoped id (Throws e) x)) s1 ->
  _build_by_factory_function R (S fuel) f name s = (Raise e, constructed s s1).
Proof.
  intros Hb Hs Hcalled.
  eapply construction_fails_after_call; eauto.
Qed.

Lemma failed_acquisition_registers_nothing_witness :
  let s1 := set_next_id 1
              (under_construction Failing.broken_resource Failing.junkie) in
  _build_by_factory_function Failing.runtime 1 Failing.broken_resource
    (Some "r") Failing.junkie
  = (Raise (UserException "busy"), constructed Failing.junkie s1).
Proof.
  intros s1.
  apply (failed_acquisition_registers_nothing Failing.runtime 0
           Failing.broken_resource (Some "r") Failing.junkie 0 ExitFalse
           (UserException "busy") s1).
  - apply (bool_decide_eq_false_1 (Failing.broken_resource ∈ [Failing.int]));
      vm_compute; reflexivity.
  - apply not_elem_of_nil.
  - exists Bound_init,
      (under_construction Failing.broken_resource Failing.junkie), [], [], [].
    repeat split; reflexivity.
Defined.

(** X7. An object without [__aenter__] is returned as the factory produced
    it: no resource is registered or logged; built under a name it is
    stored under that name, and the cache is otherwise what the call
    left. *)
Theorem plain_object_is_returned_as_produced
    R fuel f name s instance s1 :
  f ∉ BUILTINS R ->
  f ∉ _instantiation_stack s ->
  called R fuel f (under_construction f s) (Returns instance) s1 ->
  has_aenter instance = false ->
  _instances_by_name s < length (dicts s) ->
  exists s',
    _build_by_factory_function R (S fuel) f (Some name) s = (Ok instance, s')
    /\ events s' = events s1
    /\ exit_stacks s' = exit_stacks s1
    /\ cache s' = <[name := instance]> (cache s1)
    /\ _instantiation_stack s' = _instantiation_stack s.
Proof.
  intros Hb Hs Hcalled Hplain Hvalid. simpl.
  destruct (called_frame R _ _ _ _ _ Hcalled) as [Hfr Hst].
  rewrite build_by_factory_unfold by done. unfold try_finally.
  fold (_call_factory_function R fuel).
  unfold bind at 1. rewrite (called_call R _ _ _ _ _ _ Hcalled).
  rewrite (bind_Ok (of_completion (Returns instance)) _ s1 instance s1 eq_refl).
  rewrite Hplain.
  unfold bind, modify, ret, cache_store, pop_instantiation_stack. simpl.
  rewrite Hst. unfold under_construction at 1. simpl. rewrite pop_push.
  eexists. split; [reflexivity |]. simpl. repeat split.
  destruct Hfr as [_ Href _ _ Hdl _ _ _ _]. simpl in *.
  unfold cache at 1, dict_at. simpl.
  by rewrite list_lookup_insert_eq by lia.
Qed.

Lemma plain_object_is_returned_as_produced_witness :
  let s := Single.junkie in
  let s1 := set_next_id 1 (under_construction Single.A s) in
  exists s',
    _build_by_factory_function Single.runtime 1 Single.A (Some "a") s
    = (Ok (VObj 0), s')
    /\ events s' = events s1
    /\ exit_stacks s' = exit_stacks s1
    /\ cache s' = <["a" := VObj 0]> (cache s1)
    /\ _instantiation_stack s' = _instantiation_stack s.
Proof.
  intros s s1.
  apply (plain_object_is_returned_as_produced Single.runtime 0 Single.A "a"
           s (VObj 0) s1).
  - apply not_elem_of_nil.
  - apply not_elem_of_nil.
  - exists Bound_init, (under_construction Single.A s), [], [], [].
    repeat split; reflexivity.
  - reflexivity.
  - simpl; lia.
Defined.

(** ** Invariants of a build *)

Lemma unwind_keeps E exc s :
  _instantiation_stack (snd (unwind E exc s)) = _instantiation_stack s
  /\ _context (snd (unwind E exc s)) = _context s.
Proof.
  unfold unwind, pop_instances_by_name_stack.
  destruct (_Stack.pop _) as [[x rest] |].
  - by destruct (aexit_frame E exc (set_instances_by_name_stack rest s))
      as (? & _ & _ & _ & ?).
  - by destruct (aexit_frame E (Some (IndexError "pop from empty list")) s)
      as (? & _ & _ & _ & ?).
Qed.

(** X8. Whatever a build does and however it ends (yielding, raising,
    leaving the caller's block), the instantiation stack is afterwards what
    it was before, and the registry is never written. *)
Theorem build_restores_instantiation_stack R fuel targets s0 sc exc s :
  let entered := snd (inject_enter R fuel targets s0) in
  let left := snd (inject_exit sc exc s) in
  _instantiation_stack entered = _instantiation_stack s0
  /\ _context entered = _context s0
  /\ _instantiation_stack left = _instantiation_stack s
  /\ _context left = _context s.
Proof.
  simpl. split; [| split; [| apply unwind_keeps]].
  - destruct (_Stack.peek (_instances_by_name_stack s0)) as [top |] eqn:Hpeek.
    + rewrite (inject_enter_seeded R fuel targets s0 top Hpeek).
      pose proof (balanced_build_targets R fuel targets (seeded top s0)) as Hb.
      destruct (build_targets R fuel targets (seeded top s0))
        as [[v | e |] s4]; simpl in *; try done.
      destruct (unwind_keeps (length (exit_stacks s0)) (Some e) s4)
        as [Hst _].
      destruct (unwind _ _ s4) as [[[] | e' |] s']; simpl in *; congruence.
    + unfold inject_enter. simpl. rewrite Hpeek.
      match goal with |- context [aexit ?E ?x ?s] =>
        destruct (aexit_frame E x s) as (_ & _ & _ & _ & Hst);
        destruct (aexit E x s) as [[[] | e' |] s'] end; by simpl in *.
  - destruct (_Stack.peek (_instances_by_name_stack s0)) as [top |] eqn:Hpeek.
    + rewrite (inject_enter_seeded R fuel targets s0 top Hpeek).
      destruct (framed_build_targets R fuel targets (seeded top s0))
        as [Hc _ _ _ _ _ _ _ _].
      destruct (build_targets R fuel targets (seeded top s0))
        as [[v | e |] s4]; simpl in *; try done.
      destruct (unwind_keeps (length (exit_stacks s0)) (Some e) s4)
        as [_ Hctx].
      destruct (unwind _ _ s4) as [[[] | e' |] s']; simpl in *; congruence.
    + unfold inject_enter. simpl. rewrite Hpeek.
      match goal with |- context [aexit ?E ?x ?s] =>
        destruct (aexit_frame E x s) as (Hctx & _);
        destruct (aexit E x s) as [[[] | e' |] s'] end; by simpl in *.
Qed.



Lemma inject_enter_terminates_witness :
  budgeted [Mutual.f; Mutual.g] 3 Mutual.junkie
  /\ forallb (callable_in [Mutual.f; Mutual.g]) [VStr "a"] = true
  /\ runs (inject_enter Mutual.runtime 3 [VStr "a"]) Mutual.junkie.
Proof.
  assert (budgeted [Mutual.f; Mutual.g] 3 Mutual.junkie) as Hb.
  { split; [vm_compute; reflexivity |]. split; [apply NoDup_nil_2 |].
    split; [intros g Hg; by apply elem_of_nil in Hg | simpl; lia]. }
  assert (forallb (callable_in [Mutual.f; Mutual.g]) [VStr "a"] = true)
    as Ht by reflexivity.
  split; [exact Hb |]. split; [exact Ht |].
  apply (inject_enter_terminates Mutual.runtime [Mutual.f; Mutual.g] 3);
    [vm_compute; reflexivity | exact Hb | exact Ht].
Defined.

(** X11. Builds do not share instances: when the scope of a build has been
    left, on any path, the frame it started from is again the top of the
    cache stack and holds what it held, so the next build starts from the
    same cache as this one did and sees nothing this one built. *)
Theorem builds_do_not_share_instances R fuel targets s0 top :
  _Stack.peek (_instances_by_name_stack s0) = Some top ->
  top < length (dicts s0) ->
  match inject_enter R fuel targets s0 with
  | (Ok (_, sc), s1) =>
      forall exc,
        let s2 := snd (inject_exit sc exc s1) in
        _Stack.peek (_instances_by_name_stack s2) = Some top
        /\ cache (seeded top s2) = cache (seeded top s0)
  | (Raise _, s2) =>
      _Stack.peek (_instances_by_name_stack s2) = Some top
      /\ cache (seeded top s2) = cache (seeded top s0)
  | (OutOfFuel, _) => True
  end.
Proof.
  intros Hpeek Hvalid.
  rewrite (inject_enter_seeded R fuel targets s0 top Hpeek).
  pose proof (unwind_overlay R fuel targets top s0) as Hclosed.
  simpl in Hclosed.
  assert (forall s2, _instances_by_name_stack s2 = _instances_by_name_stack s0 ->
            dict_at top s2 = dict_at top s0 ->
            _Stack.peek (_instances_by_name_stack s2) = Some top
            /\ cache (seeded top s2) = cache (seeded top s0)) as Hgoal.
  { intros s2 Hst Hd. rewrite Hst. split; [done |].
    destruct (seeded_cache top s2) as (-> & _).
    by destruct (seeded_cache top s0) as (-> & _). }
  destruct (build_targets R fuel targets (seeded top s0)) as [[v | e |] s4];
    simpl in *; [| | done].
  - intros exc. unfold inject_exit. simpl.
    destruct (Hclosed (length (exit_stacks s0)) exc) as (Hst & _ & Hd).
    apply Hgoal; [done | by apply Hd].
  - destruct (Hclosed (length (exit_stacks s0)) (Some e)) as (Hst & _ & Hd).
    destruct (unwind _ _ s4) as [[[] | e' |] s']; simpl in *; try done;
      (apply Hgoal; [done | by apply Hd]).
Qed.

Lemma builds_do_not_share_instances_witness :
  let s0 := Single.junkie in
  _Stack.peek (_instances_by_name_stack s0) = Some 0
  /\ 0 < length (dicts s0)
  /\ match inject_enter Single.runtime 1 [VStr "a"] s0 with
     | (Ok (_, sc), s1) =>
         forall exc,
           let s2 := snd (inject_exit sc exc s1) in
           _Stack.peek (_instances_by_name_stack s2) = Some 0
           /\ cache (seeded 0 s2) = cache (seeded 0 s0)
     | (Raise _, s2) =>
         _Stack.peek (_instances_by_name_stack s2) = Some 0
         /\ cache (seeded 0 s2) = cache (seeded 0 s0)
     | (OutOfFuel, _) => True
     end.
Proof.
  intros s0.
  assert (_Stack.peek (_instances_by_name_stack s0) = Some 0) as Hp
    by reflexivity.
  assert (0 < length (dicts s0)) as Hv by (simpl; lia).
  split; [exact Hp |]. split; [exact Hv |].
  exact (builds_do_not_share_instances Single.runtime 1 [VStr "a"] s0 0 Hp Hv).
Defined.

(** Two builds of the same name, one after the other: each constructs its
    own object. *)
Example second_build_constructs_again :
  let run1 := inject_enter Single.runtime 1 [VStr "a"] Single.junkie in
  let s2 := snd (inject_exit {| scope_exit_stack := 1 |} None (snd run1)) in
  fst run1 = Ok (VObj 0, {| scope_exit_stack := 1 |})
  /\ fst (inject_enter Single.runtime 1 [VStr "a"] s2)
     = Ok (VObj 1, {| scope_exit_stack := 2 |}).
Proof. split; vm_compute; reflexivity. Qed.

(** ** The arguments of the call *)

Lemma odict_set_fresh name v od :
  name ∉ map fst od -> map fst (odict_set name v od) = map fst od ++ [name].
Proof.
  induction od as [| [k w] rest IH]; intros Hfresh; [done |].
  simpl in *. rewrite not_elem_of_cons in Hfresh. destruct Hfresh as [Hne Hrest].
  rewrite bool_decide_eq_false_2 by congruence. simpl. by rewrite IH.
Qed.

Lemma sublist_not_elem_of (l k : list string) n :
  sublist l k -> n ∉ k -> n ∉ l.
Proof. intros Hsub Hn Hl. apply Hn. by eapply elem_of_sublist. Qed.

Lemma in_declaration_order_step R rec f pre p b s b' s' :
  in_declaration_order pre b ->
  p_name p ∉ map p_name pre ->
  bind_parameter R rec f p b s = (Ok b', s') ->
  in_declaration_order (pre ++ [p]) b'.
Proof.
  intros (Hpos & Hkw & Hdis) Hfresh Hrun.
  unfold in_declaration_order. rewrite map_app. simpl.
  assert (p_name p ∉ positional_names b) as Hnp
    by by eapply sublist_not_elem_of.
  assert (p_name p ∉ keyword_names b) as Hnk
    by by eapply sublist_not_elem_of.
  assert (in_declaration_order_same :
            sublist (positional_names b) (map p_name pre ++ [p_name p])
            /\ sublist (keyword_names b) (map p_name pre ++ [p_name p])
            /\ forall n, n ∈ positional_names b -> n ∉ keyword_names b).
  { repeat split; try done; by apply sublist_inserts_r. }
  assert (Hpositional : forall v,
            sublist (positional_names (set_positional (p_name p) v b))
              (map p_name pre ++ [p_name p])
            /\ sublist (keyword_names (set_positional (p_name p) v b))
                 (map p_name pre ++ [p_name p])
            /\ forall n, n ∈ positional_names (set_positional (p_name p) v b) ->
                 n ∉ keyword_names (set_positional (p_name p) v b)).
  { intros v. unfold positional_names, keyword_names. simpl.
    rewrite odict_set_fresh by done. repeat split.
    - by apply sublist_app.
    - by apply sublist_inserts_r.
    - intros n. rewrite elem_of_app, list_elem_of_singleton.
      intros [Hn | ->]; [by apply Hdis | done]. }
  assert (Hkeyword : forall v,
            sublist (positional_names (set_keyword (p_name p) v b))
              (map p_name pre ++ [p_name p])
            /\ sublist (keyword_names (set_keyword (p_name p) v b))
                 (map p_name pre ++ [p_name p])
            /\ forall n, n ∈ positional_names (set_keyword (p_name p) v b) ->
                 n ∉ keyword_names (set_keyword (p_name p) v b)).
  { intros v. unfold positional_names, keyword_names. simpl.
    rewrite odict_set_fresh by done. repeat split.
    - by apply sublist_inserts_r.
    - by apply sublist_app.
    - intros n Hn. rewrite elem_of_app, list_elem_of_singleton.
      intros [Hk | ->]; [by apply (Hdis n) | done]. }
  destruct (bind_parameter_cases _ _ _ _ _ _ _ _ Hrun) as [-> | [-> | [v ->]]];
    try done.
  unfold place. destruct (p_kind p); try done.
  by destruct (positional_params_finished b).
Qed.

Lemma in_declaration_order_loop R rec f post : forall pre b s b' s',
  NoDup (map p_name (pre ++ post)) ->
  in_declaration_order pre b ->
  bind_parameters R rec f post b s = (Ok b', s') ->
  in_declaration_order (pre ++ post) b'.
Proof.
  induction post as [| p post IH]; intros pre b s b' s' Hnd Hinv Hrun.
  - injection Hrun as <- <-. by rewrite app_nil_r.
  - simpl in Hrun. unfold bind in Hrun.
    destruct (bind_parameter R rec f p b s) as [[b1 | e |] s1] eqn:Hp;
      try done.
    replace (pre ++ p :: post) with ((pre ++ [p]) ++ post) in *
      by by rewrite <- app_assoc.
    eapply IH; [done | | exact Hrun].
    eapply in_declaration_order_step; [done | | exact Hp].
    rewrite !map_app in Hnd. simpl in Hnd.
    apply NoDup_app in Hnd as [Hnd _].
    apply NoDup_app in Hnd as (_ & Hdis & _).
    intros Hin. apply (Hdis _ Hin). by left.
Qed.

(** X12. The values bound for a factory keep the order of its signature:
    the parameters passed by position and those passed by keyword each come
    in declaration order, and no parameter is passed both ways. *)
Theorem arguments_follow_declaration_order R fuel f parameters s b s' :
  signature (factories R f) = Some parameters ->
  NoDup (map p_name parameters) ->
  _build_parameters R fuel f s = (Ok b, s') ->
  in_declaration_order parameters b.
Proof.
  intros Hsig Hnd Hrun.
  unfold _build_parameters, _build_parameters_with in Hrun.
  rewrite Hsig in Hrun.
  apply (in_declaration_order_loop R (_build_by_factory_function R fuel) f
           parameters [] Bound_init s b s'); try done.
  repeat split; try apply sublist_nil_l. intros n Hn. by apply elem_of_nil in Hn.
Qed.

Lemma arguments_follow_declaration_order_witness :
  in_declaration_order [named "prefix"; named "suffix"]
    {| positional_params := [("prefix", VStr "abc"); ("suffix", VStr "xyz")];
       args := VTuple []; keyword_params := []; kwargs := VDict [];
       positional_params_finished := false |}.
Proof.
  apply (arguments_follow_declaration_order Text.runtime 0 Text.text
           [named "prefix"; named "suffix"] Text.junkie _ Text.junkie).
  - reflexivity.
  - apply (bool_decide_unpack _). vm_compute. exact I.
  - vm_compute; reflexivity.
Defined.

(** ** Relations every step of the resolver keeps *)

Section Stepwise.
Variable R : Runtime.
Variable Rel : Junkie -> Junkie -> Prop.
Hypothesis Rel_refl : forall s, Rel s s.
Hypothesis Rel_trans : forall s1 s2 s3, Rel s1 s2 -> Rel s2 s3 -> Rel s1 s3.
Hypothesis Rel_awaited : forall a s, Rel s (set_awaited a s).
Hypothesis Rel_next_id : forall s, Rel s (set_next_id (S (next_id s)) s).
Hypothesis Rel_stack : forall st s, Rel s (set_instantiation_stack st s).
Hypothesis Rel_store : forall name v, keeps Rel (cache_store name v).
Hypothesis Rel_enter : forall cm, keeps Rel (enter_async_context cm).

Lemma keeps_ret {A} (a : A) : keeps Rel (ret a).
Proof. intros s. apply Rel_refl. Qed.

Lemma keeps_raise {A} e : keeps Rel (@raise A e).
Proof. intros s. apply Rel_refl. Qed.

Lemma keeps_get : keeps Rel get.
Proof. intros s. apply Rel_refl. Qed.

Lemma keeps_bind {A B} (c : M A) (k : A -> M B) :
  keeps Rel c -> (forall a, keeps Rel (k a)) -> keeps Rel (bind c k).
Proof.
  intros Hc Hk s. unfold bind. specialize (Hc s).
  destruct (c s) as [[a | e |] s1]; simpl in *; try done.
  eapply Rel_trans; [exact Hc | apply Hk].
Qed.

Lemma keeps_pure {A} (c : M A) : (forall s, snd (c s) = s) -> keeps Rel c.
Proof. intros H s. rewrite H. apply Rel_refl. Qed.

Lemma keeps_of_completion c : keeps Rel (of_completion c).
Proof. apply keeps_pure. by destruct c. Qed.

Lemma keeps_await v : keeps Rel (await v).
Proof.
  destruct v; try apply keeps_raise. simpl.
  apply keeps_bind; [apply keeps_get |]. intros s.
  destruct (bool_decide _); [apply keeps_raise |].
  apply keeps_bind; [| intros; apply keeps_of_completion].
  intros s'. apply Rel_awaited.
Qed.

Lemma keeps_instantiating {A} item (body : M A) :
  keeps Rel body -> keeps Rel (instantiating item body).
Proof.
  intros Hb. unfold instantiating. apply keeps_bind.
  - intros s. apply Rel_stack.
  - intros _ s. unfold try_finally. specialize (Hb s).
    destruct (body s) as [r s1]. simpl in Hb.
    assert (Rel s1 (snd (pop_instantiation_stack s1))) as Hp.
    { unfold pop_instantiation_stack.
      destruct (_Stack.pop _) as [[? rest] |]; simpl;
        [apply Rel_stack | apply Rel_refl]. }
    destruct (pop_instantiation_stack s1) as [[[] | e |] s2]; simpl in *;
      by eapply Rel_trans.
Qed.

Section Methods.
Variable rec : fid -> option string -> M value.
Hypothesis keeps_rec : forall f n, keeps Rel (rec f n).

Lemma keeps_build_by_instance_name_with name :
  keeps Rel (_build_by_instance_name_with R rec name).
Proof.
  unfold _build_by_instance_name_with.
  apply keeps_bind; [apply keeps_get |]. intros s.
  destruct (dict_contains (cache s) name); [apply keeps_await |].
  destruct (dict_contains (_context s) name); [| apply keeps_raise].
  destruct (default VNone _); first [apply keeps_rec | apply keeps_ret].
Qed.

Lemma keeps_bind_parameter f p b : keeps Rel (bind_parameter R rec f p b).
Proof.
  intros s. destruct (resolvable_by_name p s) eqn:Hr.
  - rewrite bind_parameter_resolvable by done.
    apply keeps_bind;
      [apply keeps_build_by_instance_name_with | intros; apply keeps_ret].
  - rewrite bind_parameter_unresolvable by done.
    destruct (is_variadic p); [apply Rel_refl |].
    destruct (p_default p); [apply Rel_refl |].
    destruct (p_annotation p) as [v |]; [| apply Rel_refl].
    destruct v; try apply Rel_refl.
    apply keeps_bind; [apply keeps_rec | intros; apply keeps_ret].
Qed.

Lemma keeps_bind_parameters f ps :
  forall b, keeps Rel (bind_parameters R rec f ps b).
Proof.
  induction ps as [| p rest IH]; intros b; simpl; [apply keeps_ret |].
  apply keeps_bind; [apply keeps_bind_parameter | auto].
Qed.

Lemma keeps_call_factory_function_with f n :
  keeps Rel (_call_factory_function_with R rec f n).
Proof.
  unfold _call_factory_function_with.
  apply keeps_bind.
  { unfold _build_parameters_with. destruct (signature _).
    - apply keeps_bind_parameters.
    - apply keeps_bind; [apply keeps_get | intros; apply keeps_raise]. }
  intros b. apply keeps_bind; [apply keeps_pure, iterate_state |].
  intros star. apply keeps_bind; [apply keeps_pure, mapping_state |].
  intros extra. apply keeps_bind; [apply keeps_pure, merge_keywords_state |].
  intros keywords s. unfold bind at 1, get. unfold bind at 1, modify.
  eapply Rel_trans; [apply Rel_next_id |].
  apply keeps_bind; [apply keeps_of_completion |]. intros instance.
  destruct (has_aenter instance); [apply Rel_enter | apply keeps_ret].
Qed.

Lemma keeps_build_by_factory_function_with f n :
  keeps Rel (_build_by_factory_function_with R rec f n).
Proof.
  unfold _build_by_factory_function_with.
  apply keeps_bind; [apply keeps_get |]. intros s.
  destruct (bool_decide _); [apply keeps_raise |].
  destruct (_Stack.contains _ _); [apply keeps_raise |].
  apply keeps_instantiating.
  apply keeps_bind; [apply keeps_call_factory_function_with |].
  intros instance. apply keeps_bind; [| intros; apply keeps_ret].
  destruct n; [apply Rel_store | apply keeps_ret].
Qed.
End Methods.

Lemma keeps_build_by_factory_function fuel :
  forall f n, keeps Rel (_build_by_factory_function R fuel f n).
Proof.
  induction fuel as [| fuel IH]; intros f n; simpl.
  - intros s. apply Rel_refl.
  - by apply keeps_build_by_factory_function_with.
Qed.

Lemma keeps_build_instance fuel v : keeps Rel (_build_instance R fuel v).
Proof.
  destruct v; simpl;
    try (apply keeps_bind; [apply keeps_get | intros; apply keeps_raise]).
  - apply keeps_build_by_instance_name_with, keeps_build_by_factory_function.
  - apply keeps_build_by_factory_function.
Qed.

Lemma keeps_build_each fuel vs : keeps Rel (build_each R fuel vs).
Proof.
  induction vs as [| v rest IH]; simpl; [apply keeps_ret |].
  apply keeps_bind; [apply keeps_build_instance |]. intros instance.
  apply keeps_bind; [exact IH | intros; apply keeps_ret].
Qed.

Lemma keeps_build_targets fuel vs : keeps Rel (build_targets R fuel vs).
Proof.
  assert (keeps Rel (_build_tuple R fuel vs)) as Ht.
  { apply keeps_bind; [apply keeps_build_each | intros; apply keeps_ret]. }
  destruct vs as [| v [| w rest]]; simpl; try exact Ht.
  apply keeps_build_instance.
Qed.
End Stepwise.


Lemma retains_names_refl s : retains_names s s.
Proof. by split. Qed.

Lemma retains_names_trans s1 s2 s3 :
  retains_names s1 s2 -> retains_names s2 s3 -> retains_names s1 s3.
Proof. intros [H1 K1] [H2 K2]. split; [congruence | auto]. Qed.

Lemma retains_names_same s s' :
  _instances_by_name s' = _instances_by_name s -> dicts s' = dicts s ->
  retains_names s s'.
Proof. intros Hr Hd. split; [done |]. unfold cache, dict_at. by rewrite Hr, Hd. Qed.

Lemma retains_names_store name v : keeps retains_names (cache_store name v).
Proof.
  intros s. split; [done |]. intros n. unfold cache at 2, dict_at. simpl.
  destruct (decide (_instances_by_name s < length (dicts s))) as [Hlt | Hge].
  - rewrite list_lookup_insert_eq by done. simpl.
    intros Hn. apply lookup_insert_is_Some'. by right.
  - by rewrite list_insert_ge by lia.
Qed.

Lemma retains_names_enter cm : keeps retains_names (enter_async_context cm).
Proof.
  intros s. destruct cm as [| | | | | | | | |id [r | e] x];
    by apply retains_names_same.
Qed.

(** X13. A name that is in the build's cache stays in it: no step of the
    resolution of any targets removes a name from the cache. *)
Theorem cached_names_stay_cached R fuel targets s name :
  is_Some (cache s !! name) ->
  is_Some (cache (snd (build_targets R fuel targets s)) !! name).
Proof.
  intros Hname.
  assert (keeps retains_names (build_targets R fuel targets)) as Hkeeps.
  { apply keeps_build_targets;
      first [ exact retains_names_refl
            | exact retains_names_trans
            | exact retains_names_store
            | exact retains_names_enter
            | intros; by apply retains_names_same ]. }
  by apply Hkeeps.
Qed.

Lemma cached_names_stay_cached_witness :
  let s := snd (inject_enter Single.runtime 1 [VStr "a"] Single.junkie) in
  is_Some (cache s !! "a")
  /\ is_Some (cache (snd (build_targets Single.runtime 1
                            [VStr "w"; VCallable Single.A] s)) !! "a").
Proof.
  intros s.
  assert (is_Some (cache s !! "a")) as Ha by (by exists (VObj 0)).
  split; [exact Ha |].
  exact (cached_names_stay_cached Single.runtime 1
           [VStr "w"; VCallable Single.A] s "a" Ha).
Defined.

(** X14. Building a callable target (a build with no name) stores nothing
    of its own: the dictionaries afterwards are the ones the binding of its
    parameters left, whatever the call and the acquisition of its result
    did. *)
Theorem anonymous_build_stores_only_dependencies R fuel f s b sb :
  f ∉ BUILTINS R ->
  f ∉ _instantiation_stack s ->
  _build_parameters R fuel f (under_construction f s) = (Ok b, sb) ->
  dicts (snd (_build_by_factory_function R (S fuel) f None s)) = dicts sb.
Proof.
  intros Hb Hs Hbound. simpl.
  rewrite build_by_factory_unfold by done. unfold try_finally.
  assert (keeps same_dicts
            (fun s0 =>
               (star <- iterate (args b);;
                extra <- mapping (kwargs b);;
                keywords <- merge_keywords (keyword_params b) extra;;
                s <- get;;
                modify (set_next_id (S (next_id s)));;
                instance <- of_completion
                  (call (factories R f)
                     (map snd (positional_params b) ++ star) keywords
                     (next_id s));;
                (if has_aenter instance then enter_async_context instance
                 else ret instance)) s0)) as Hrest.
  { assert (forall s0, same_dicts s0 s0) as Hrefl by done.
    assert (forall s1 s2 s3, same_dicts s1 s2 -> same_dicts s2 s3 ->
              same_dicts s1 s3) as Htrans
      by (unfold same_dicts; congruence).
    apply keeps_bind;
      [done | apply keeps_pure; [done | apply iterate_state] |].
    intros star. apply keeps_bind;
      [done | apply keeps_pure; [done | apply mapping_state] |].
    intros extra. apply keeps_bind;
      [done | apply keeps_pure; [done | apply merge_keywords_state] |].
    intros keywords s0. unfold bind at 1, get. unfold bind at 1, modify.
    apply (Htrans s0 (set_next_id (S (next_id s0)) s0)); [done |].
    apply keeps_bind; [done | apply keeps_of_completion; exact Hrefl |].
    intros instance.
    destruct (has_aenter instance); [| apply keeps_ret; exact Hrefl].
    intros s1. by destruct instance as [| | | | | | | | |id [r | e] x]. }
  specialize (Hrest sb). cbv beta in Hrest. unfold same_dicts in Hrest.
  unfold _call_factory_function_with. fold (_build_parameters R fuel).
  unfold bind at 1. rewrite (bind_Ok _ _ _ _ _ Hbound).
  match goal with |- context [let (o, s') := ?c in _] =>
    assert (dicts (snd c) = dicts sb) as Hrest' by exact Hrest;
    destruct c as [[instance | e |] s1] end;
    simpl in *; unfold pop_instantiation_stack;
    by destruct (_Stack.pop (_instantiation_stack s1)) as [[? ?] |].
Qed.

Lemma anonymous_build_stores_only_dependencies_witness :
  let s := Annotated.junkie in
  let sb := snd (_build_parameters Annotated.runtime 1 Annotated.f
                   (under_construction Annotated.f s)) in
  dicts (snd (_build_by_factory_function Annotated.runtime 2 Annotated.f
                None s))
  = dicts sb.
Proof.
  intros s sb.
  apply (anonymous_build_stores_only_dependencies Annotated.runtime 1
           Annotated.f s
           {| positional_params := [("x", VObj 0)]; args := VTuple [];
              keyword_params := []; kwargs := VDict [];
              positional_params_finished := false |} sb).
  - apply not_elem_of_nil.
  - apply not_elem_of_nil.
  - vm_compute; reflexivity.
Defined.

(** ** The instantiation stack and its rendering *)

Lemma stack_entries_app R st : forall idx f,
  stack_entries R idx (st ++ [f])
  = stack_entries R idx st +:+ stack_entry R (idx + length st) f.
Proof.
  induction st as [| g rest IH]; intros idx f; simpl.
  - by rewrite Nat.add_0_r, string_app_nil_r.
  - rewrite IH, string_app_assoc. by replace (S idx + length rest)
      with (idx + S (length rest)) by lia.
Qed.

(** X15. Each factory under construction adds one line to the trace, after
    the lines of the factories that were already under construction and
    indented by as many spaces as there were; the trace of an empty stack
    is the empty string. *)
Theorem trace_grows_by_one_line R f st :
  _InstantiationStack_str R [] = ""
  /\ _InstantiationStack_str R (_Stack.push f st)
     = stack_entries R 0 st
       +:+ (newline +:+ spaces (length st) +:+ "-> " +:+ get_factory_name R f
            +:+ "() at " +:+ _get_source_info (source (factories R f)))
       +:+ newline.
Proof.
  split; [done |]. unfold _InstantiationStack_str, _Stack.push.
  destruct (st ++ [f]) as [| g rest] eqn:Heq.
  { by destruct st. }
  rewrite <- Heq. rewrite stack_entries_app. simpl.
  by rewrite string_app_assoc.
Qed.

(** X16. The stack operations compose as those of a stack: [pop] after
    [push] returns the item pushed and the stack as it was, [peek] reads the
    item last pushed, the stack holds what it held and the item pushed, its
    length grows by one; on the empty stack [pop] and [peek] fail. *)
Theorem stack_operations_compose {A} (x : A) (st : list A) (y item : fid)
    (items : list fid) :
  _Stack.pop (_Stack.push x st) = Some (x, st)
  /\ _Stack.peek (_Stack.push x st) = Some x
  /\ _Stack_len (_Stack.push x st) = S (_Stack_len st)
  /\ _Stack.contains y (_Stack.push item items)
     = _Stack.contains y items || bool_decide (y = item)
  /\ _Stack.pop (@nil A) = None
  /\ _Stack.peek (@nil A) = None.
Proof.
  repeat split.
  - apply pop_push.
  - apply peek_push.
  - unfold _Stack_len, _Stack.push. rewrite length_app. simpl. lia.
  - unfold _Stack.contains, _Stack.push.
    apply eq_true_iff_eq. rewrite orb_true_iff, !bool_decide_eq_true.
    by rewrite elem_of_app, list_elem_of_singleton.
Qed.

(** ** How errors leave a build *)

Lemma run_callbacks_all_false cbs pending :
  Forall (fun cb => cb_exit cb = ExitFalse) cbs ->
  run_callbacks cbs pending = pending.
Proof.
  induction 1 as [| cb cbs Hcb _ IH]; [done |].
  unfold run_callbacks in *. simpl. unfold after_callback at 1.
  by rewrite Hcb.
Qed.



Lemma build_each_fails R fuel built : forall target rest s instances s1 e s2,
  build_each R fuel built s = (Ok instances, s1) ->
  _build_instance R fuel target s1 = (Raise e, s2) ->
  build_each R fuel (built ++ target :: rest) s = (Raise e, s2).
Proof.
  induction built as [| t built IH];
    intros target rest s instances s1 e s2 Hbuilt Hfail; simpl in *.
  - injection Hbuilt as <- <-. by apply bind_Raise.
  - unfold bind at 1 in Hbuilt.
    destruct (_build_instance R fuel t s) as [[v | e' |] s'] eqn:Ht;
      try done.
    unfold bind at 1 in Hbuilt.
    destruct (build_each R fuel built s') as [[vs | e' |] s''] eqn:Hvs;
      try done.
    injection Hbuilt as <- <-.
    unfold bind at 1. rewrite Ht. apply bind_Raise. by eapply IH.
Qed.

(** X18. Several targets are built from left to right, each from the state
    the one before left, and the first that fails ends the build: the
    targets after it are not built and the state is the one the failing
    target left. *)
Theorem first_failing_target_stops_build
    R fuel built target rest s instances s1 e s2 :
  build_each R fuel built s = (Ok instances, s1) ->
  _build_instance R fuel target s1 = (Raise e, s2) ->
  _build_tuple R fuel (built ++ target :: rest) s = (Raise e, s2).
Proof.
  intros Hbuilt Hfail. unfold _build_tuple. apply bind_Raise.
  by eapply build_each_fails.
Qed.

Lemma first_failing_target_stops_build_witness :
  let R := Resources.runtime (Throws (UserException "boom")) in
  let s := seeded 0 Resources.junkie in
  let s1 := snd (build_each R 1 [VStr "r0"; VStr "r1"] s) in
  let s2 := snd (_build_instance R 1 (VStr "r2") s1) in
  _build_tuple R 1 ([VStr "r0"; VStr "r1"] ++ VStr "r2" :: [VStr "r0"]) s
  = (Raise (UserException "boom"), s2).
Proof.
  intros R s s1 s2.
  apply (first_failing_target_stops_build R 1 [VStr "r0"; VStr "r1"]
           (VStr "r2") [VStr "r0"] s [VNone; VNone] s1
           (UserException "boom") s2).
  - vm_compute; reflexivity.
  - vm_compute; reflexivity.
Defined.

(** ** The text of logged arguments *)

Lemma join_app sep (l1 l2 : list string) :
  l1 <> [] -> l2 <> [] ->
  join sep (l1 ++ l2) = join sep l1 +:+ sep +:+ join sep l2.
Proof.
  intros H1 H2. induction l1 as [| x [| y l1] IH]; [done | |].
  - simpl. by destruct l2.
  - change (join sep ((x :: y :: l1) ++ l2))
      with (x +:+ sep +:+ join sep ((y :: l1) ++ l2)).
    rewrite IH by done.
    change (join sep (x :: y :: l1)) with (x +:+ sep +:+ join sep (y :: l1)).
    by rewrite !string_app_assoc.
Qed.

(** X19. The text of logged arguments lists the positional arguments
    first and the keyword arguments after them: with both present it is
    the text of the positional arguments, a comma and a space, and the text
    of the keyword arguments; with no arguments at all it is empty. *)
Theorem log_params_positional_then_keyword str repr args kwargs :
  args <> [] -> kwargs <> [] ->
  _LogParams_str str repr args kwargs
  = _LogParams_str str repr args [] +:+ ", "
    +:+ _LogParams_str str repr [] kwargs
  /\ _LogParams_str str repr [] [] = "".
Proof.
  intros Ha Hk. split; [| done]. unfold _LogParams_str. simpl.
  rewrite app_nil_r. apply join_app.
  - by destruct args.
  - by destruct kwargs.
Qed.

Lemma log_params_positional_then_keyword_witness :
  _LogParams_str no_str no_str [VStr "a"; VStr "b"] [("k", VNone)]
  = _LogParams_str no_str no_str [VStr "a"; VStr "b"] [] +:+ ", "
    +:+ _LogParams_str no_str no_str [] [("k", VNone)]
  /\ _LogParams_str no_str no_str [] [] = "".
Proof.
  apply (log_params_positional_then_keyword no_str no_str
           [VStr "a"; VStr "b"] [("k", VNone)]); discriminate.
Defined.

(** ** More on the binder and on names *)

(** X20. The kind of a parameter bounds how it can be passed, in either
    phase: binding a keyword-only parameter never changes the positional
    arguments, and binding a positional-only parameter never changes the
    keyword arguments; neither changes the variadic arguments. *)
Theorem kind_bounds_how_a_parameter_is_passed R rec f q b s b' s' :
  bind_parameter R rec f q b s = (Ok b', s') ->
  (p_kind q = KEYWORD_ONLY -> positional_params b' = positional_params b)
  /\ (p_kind q = POSITIONAL_ONLY -> keyword_params b' = keyword_params b)
  /\ (is_variadic q = false -> args b' = args b /\ kwargs b' = kwargs b).
Proof.
  intros Hrun.
  destruct (bind_parameter_cases _ _ _ _ _ _ _ _ Hrun) as [-> | [-> | [v ->]]];
    try done.
  unfold place, is_variadic.
  split; [| split]; intros Hk.
  - by rewrite Hk.
  - by rewrite Hk.
  - destruct (p_kind q); try done;
      by destruct (positional_params_finished b).
Qed.

Lemma kind_bounds_how_a_parameter_is_passed_witness :
  let rec := _build_by_factory_function Defaults.runtime 0 in
  let q := {| p_name := "b"; p_kind := KEYWORD_ONLY; p_default := None;
              p_annotation := None |} in
  let b := Bound_init in
  let b' := set_keyword "b" (VStr "B") b in
  (p_kind q = KEYWORD_ONLY -> positional_params b' = positional_params b)
  /\ (p_kind q = POSITIONAL_ONLY -> keyword_params b' = keyword_params b)
  /\ (is_variadic q = false -> args b' = args b /\ kwargs b' = kwargs b).
Proof.
  intros rec q b b'.
  apply (kind_bounds_how_a_parameter_is_passed Defaults.runtime rec
           Defaults.f q b Defaults.second b' Defaults.second).
  vm_compute; reflexivity.
Defined.

(** X21. A registry literal can be resolved any number of times in one
    build: as long as its name is not in the cache, each resolution yields
    the literal and leaves the state as it was. *)
Theorem literal_resolves_repeatedly R fuel name literal s k :
  cache s !! name = None ->
  _context s !! name = Some literal ->
  callable literal = false ->
  build_each R fuel (replicate k (VStr name)) s = (Ok (replicate k literal), s).
Proof.
  intros Hc Hx Hlit. induction k as [| k IH]; [done |]. simpl.
  assert (_build_by_instance_name R fuel name s = (Ok literal, s)) as Hone.
  { rewrite uncached_name_unfold by done. rewrite Hx. by destruct literal. }
  unfold bind at 1. rewrite Hone. by rewrite (bind_Ok _ _ _ _ _ IH).
Qed.

Lemma literal_resolves_repeatedly_witness :
  build_each Text.runtime 0 (replicate 3 (VStr "prefix")) Text.junkie
  = (Ok (replicate 3 (VStr "abc")), Text.junkie).
Proof.
  apply (literal_resolves_repeatedly Text.runtime 0 "prefix" (VStr "abc")
           Text.junkie 3); reflexivity.
Defined.

(** X22. A build registers and releases resources on its own exit stack
    only: entering a build, and leaving the scope it opened, leave every
    exit stack that existed before the build as it was. *)
Theorem build_uses_its_own_exit_stack R fuel targets s0 l :
  l < length (exit_stacks s0) ->
  exit_stack_at l (snd (inject_enter R fuel targets s0)) = exit_stack_at l s0
  /\ forall exc s,
       exit_stack_at l s = exit_stack_at l s0 ->
       exit_stack_at l
         (snd (inject_exit {| scope_exit_stack := length (exit_stacks s0) |}
                 exc s))
       = exit_stack_at l s0.
Proof.
  intros Hl.
  assert (forall E exc s, l <> E ->
            exit_stack_at l (snd (unwind E exc s)) = exit_stack_at l s)
    as Hunwind.
  { intros E exc s Hne. unfold unwind, pop_instances_by_name_stack.
    destruct (_Stack.pop _) as [[x rest] |]; unfold aexit;
      destruct (run_callbacks _ _); unfold exit_stack_at; simpl;
      by rewrite list_lookup_insert_ne. }
  split.
  - destruct (_Stack.peek (_instances_by_name_stack s0)) as [top |] eqn:Hpeek.
    + rewrite (inject_enter_seeded R fuel targets s0 top Hpeek).
      destruct (framed_build_targets R fuel targets (seeded top s0))
        as [_ _ _ _ _ _ _ Hother _].
      assert (exit_stack_at l (snd (build_targets R fuel targets
                                      (seeded top s0)))
              = exit_stack_at l s0) as Hbuilt.
      { unfold exit_stack_at. rewrite Hother by (simpl; lia).
        unfold seeded. simpl. by rewrite lookup_app_l. }
      destruct (build_targets R fuel targets (seeded top s0))
        as [[v | e |] s4]; simpl in *; try done.
      pose proof (Hunwind (length (exit_stacks s0)) (Some e) s4) as Hu.
      destruct (unwind _ _ s4) as [[[] | e' |] s']; simpl in *;
        rewrite Hu by lia; done.
    + unfold inject_enter. simpl. rewrite Hpeek. unfold aexit.
      destruct (run_callbacks _ _); unfold exit_stack_at; simpl;
        rewrite list_lookup_insert_ne by lia; by rewrite lookup_app_l.
  - intros exc s Hsame. unfold inject_exit. simpl.
    rewrite Hunwind by lia. done.
Qed.

Lemma build_uses_its_own_exit_stack_witness :
  let s0 := snd (inject_enter (Resources.runtime (Returns VNone)) 1
                   [VStr "r0"] Resources.junkie) in
  1 < length (exit_stacks s0)
  /\ exit_stack_at 1
       (snd (inject_enter (Resources.runtime (Returns VNone)) 1
               [VStr "r1"] s0))
     = exit_stack_at 1 s0.
Proof.
  intros s0.
  assert (1 < length (exit_stacks s0)) as Hl by (vm_compute; lia).
  split; [exact Hl |].
  exact (proj1 (build_uses_its_own_exit_stack
                  (Resources.runtime (Returns VNone)) 1 [VStr "r1"] s0 1 Hl)).
Defined.
